(** * MirrorOTWEvaluation: the image-set user study (streamlit_app.py)

    A shallow embedding of the survey script: the catalog helpers
    ([list_folders], [list_images]), the Start / Refresh handler, the
    selection callbacks, the navigation buttons and the export of the result
    table, followed by the properties the specification states about them.

    Conventions.
    - A Python [str] is a [string] holding its UTF-8 bytes; comparing two such
      strings byte by byte orders them as Python orders the code points.
      Every [str] is taken to have such an encoding: a file name that is not
      valid UTF-8, which [os.listdir] hands over with lone surrogates and
      which [random.Random] refuses as a seed, is outside the model.
    - Code that can raise runs in the monad [M]; [try_except] is Python's
      [try: ... except Exception: ...].
    - What the script reads from outside (directory listings, the random
      generator, the outcome of disk writes) is an explicit argument. *)

From Stdlib Require Import ZArith Ascii String List.
From stdpp Require Import base option list sorting gmap strings fin_maps.

Local Open Scope string_scope.

(** ** Exceptions *)

Inductive exn : Type :=
  | OSError (msg : string)
  | NameError (name : string)
  | IndexError.

Definition M (A : Type) : Type := (exn + A)%type.

Definition raise {A} (e : exn) : M A := inl e.

#[global] Instance M_ret : MRet M := λ A x, inr x.
#[global] Instance M_bind : MBind M := λ A B f m,
  match m with
  | inl e => inl e
  | inr x => f x
  end.

(** [try: body / except Exception: handler]; every constructor of [exn] is a
    subclass of Python's [Exception]. *)
Definition try_except {A} (body : M A) (handler : exn → M A) : M A :=
  match body with
  | inl e => handler e
  | inr x => inr x
  end.

(** ** String helpers from the Python library *)

Module Str.

(** [s.rfind(c)]: index of the last occurrence of [c], [-1] if there is
    none. *)
Fixpoint rfind_from (c : ascii) (s : string) (i last : Z) : Z :=
  match s with
  | EmptyString => last
  | String a s' =>
      rfind_from c s' (i + 1)%Z (if decide (a = c) then i else last)
  end.

Definition rfind (c : ascii) (s : string) : Z := rfind_from c s 0%Z (-1)%Z.

(** [s[lo:hi]] for [0 <= lo]. *)
Definition slice (s : string) (lo hi : Z) : string :=
  substring (Z.to_nat lo) (Z.to_nat (hi - lo)) s.

Fixpoint all_chars (p : ascii → bool) (s : string) : bool :=
  match s with
  | EmptyString => true
  | String a s' => p a && all_chars p s'
  end.

(** [c.lower()] on the ASCII letters; other bytes are left as they are. *)
Definition lower_ascii (c : ascii) : ascii :=
  let n := nat_of_ascii c in
  if (65 <=? n)%nat && (n <=? 90)%nat then ascii_of_nat (n + 32) else c.

Fixpoint lower (s : string) : string :=
  match s with
  | EmptyString => EmptyString
  | String a s' => String (lower_ascii a) (lower s')
  end.

(** [sep.join(parts)]. *)
Definition join (sep : string) (parts : list string) : string :=
  String.concat sep parts.

End Str.

(** [os.path.splitext] (posixpath): the extension starts at the last dot of
    the last path component, unless that component has only dots before it. *)
Definition splitext (p : string) : string * string :=
  let sepIndex := Str.rfind "/" p in
  let dotIndex := Str.rfind "." p in
  if (sepIndex <? dotIndex)%Z then
    let filenameIndex := (sepIndex + 1)%Z in
    if Str.all_chars (λ a, bool_decide (a = "."%char))
         (Str.slice p filenameIndex dotIndex)
    then (p, "")
    else (Str.slice p 0 dotIndex, Str.slice p dotIndex (Z.of_nat (String.length p)))
  else (p, "").

(** [os.path.join(a, b)] (posixpath, two arguments). *)
Definition path_join (a b : string) : string :=
  if String.prefix "/" b then b
  else if bool_decide (a = "") || bool_decide (Str.rfind "/" a = Z.of_nat (String.length a) - 1)%Z
       then a +:+ b
       else a +:+ "/" +:+ b.

(** [list.sort()] on strings. *)
Definition sort_strings (l : list string) : list string :=
  merge_sort String.le l.

(** ** The file system, as the script observes it *)

Record FileSystem : Type := {
  listdir : string → M (list string);  (* os.listdir, raising OSError *)
  isdir : string → bool                (* os.path.isdir, never raises *)
}.

(** ** Helpers (lines 20-47) *)

Definition IMG_EXTS : gset string :=
  {[ ".png"; ".jpg"; ".jpeg"; ".webp"; ".bmp"; ".tiff" ]}.

Definition ALLOWED_IMAGES : gset string :=
  {[ "Mirror Change Top Layers _ Alpha_ 0_5.png";
     "No Intervension _ Alpha_ 0_5.png" ]}.

Definition list_folders (fs : FileSystem) (root : string) : M (list string) :=
  try_except
    (names ← listdir fs root;
     let entries := filter (λ d, isdir fs (path_join root d) = true) names in
     mret (sort_strings entries))
    (λ _, mret []).

Definition qualifies (f : string) : bool :=
  let ext := Str.lower (splitext f).2 in
  bool_decide (ext ∈ IMG_EXTS) && bool_decide (f ∈ ALLOWED_IMAGES).

Definition list_images (fs : FileSystem) (folder_path : string) : M (list string) :=
  files ← try_except
    (names ← listdir fs folder_path;
     mret (filter (λ f, qualifies f = true) names))
    (λ _, mret []);
  mret (sort_strings files).

(** A directory tree given as a table from directory paths to their
    entries; a path outside the table is not a directory. *)
Definition fs_of_table (tbl : list (string * list string)) : FileSystem :=
  {| listdir p :=
       match list_find (λ e, e.1 = p) tbl with
       | Some (_, e) => inr e.2
       | None => inl (OSError ("No such file or directory: " +:+ p))
       end;
     isdir p := bool_decide (p ∈ tbl.*1) |}.

(** ** The random generator

    [random.Random(seed)] is the Python library's generator.  The script uses
    it through [shuffle] only, which draws through [randbelow]; the library
    guarantees [0 <= randbelow(n) < n]. *)

Record Random : Type := {
  rng_state : Type;
  rng_seed : string → rng_state;                       (* Random(seed) *)
  randbelow : rng_state → nat → nat * rng_state;       (* _randbelow(n) *)
  randbelow_lt : ∀ s n, (0 < n)%nat → ((randbelow s n).1 < n)%nat
}.

(** [x[i], x[j] = x[j], x[i]]: both reads, then the write at [i], then the
    write at [j]. *)
Definition swap {A} (x : list A) (i j : nat) : M (list A) :=
  match x !! j, x !! i with
  | Some xj, Some xi => mret (<[j := xi]> (<[i := xj]> x))
  | _, _ => raise IndexError
  end.

(** [for i in reversed(range(1, len(x))): j = randbelow(i + 1); swap]. *)
Fixpoint shuffle_loop {A} (R : Random) (i : nat) (s : rng_state R) (x : list A)
  : M (list A) :=
  match i with
  | O => mret x
  | S i' =>
      let (j, s') := randbelow R s (S i) in
      x' ← swap x i j;
      shuffle_loop R i' s' x'
  end.

(** [random.Random(seed).shuffle(x)]. *)
Definition shuffle {A} (R : Random) (seed : string) (x : list A) : M (list A) :=
  shuffle_loop R (length x - 1) (rng_seed R seed) x.

(** ** Session state *)

Record Question : Type := mkQuestion {
  q_folder : string;
  q_path : string;
  q_images : list string
}.

(** The recorded answer of a folder, [{"mode": ..., "choice": ...}] with mode
    ["best"], ["worst_equal"] or ["none"] (line 140). *)
Inductive Answer : Type :=
  | Best (choice : string)
  | WorstEqual (others : list string)
  | NoneMode.

#[global] Instance Answer_eq_dec : EqDecision Answer.
Proof. solve_decision. Defined.

(** [st.session_state]: the named entries and the per-widget booleans.
    [widgets] holds every key the script has stored.  Streamlit itself drops,
    after a run, the key of a check box that the run did not draw; the
    statements below therefore speak of the controls of the question on
    display, which every run stores anew (lines 193-219) before it draws
    them. *)
Record Session : Type := mkSession {
  state_initialized : bool;
  questions : list Question;
  current_idx : Z;
  participant_name : string;
  answers : gmap string Answer;
  widgets : gmap string bool
}.

Definition initial_session : Session :=
  {| state_initialized := false; questions := []; current_idx := 0;
     participant_name := ""; answers := ∅; widgets := ∅ |}.

(** ** Start / Refresh (lines 112-142) *)

Section StartRefresh.

Variable R : Random.
Variable fs : FileSystem.
Variable root_dir : string.
Variable participant_name' : string.
Variables shuffle_questions shuffle_images : bool.

Fixpoint build_questions (base_dir : string) (folders : list string)
  : M (list Question) :=
  match folders with
  | [] => mret []
  | folder :: rest =>
      let folder_path := path_join base_dir folder in
      imgs ← list_images fs folder_path;
      imgs ← (if shuffle_images
              then shuffle R (participant_name' +:+ "|" +:+ folder) imgs
              else mret imgs);
      qs ← build_questions base_dir rest;
      mret (match imgs with
            | [] => qs
            | _ :: _ =>
                {| q_folder := folder; q_path := folder_path; q_images := imgs |} :: qs
            end)
  end.

Definition start_refresh (st : Session) : M Session :=
  let base_dir := root_dir in
  folders ← list_folders fs base_dir;
  folders ← (if shuffle_questions
             then shuffle R (participant_name' +:+ "|questions") folders
             else mret folders);
  qs ← build_questions base_dir folders;
  mret {| state_initialized := true;
          questions := qs;
          current_idx := 0;
          participant_name := participant_name';
          answers := ∅;
          widgets := widgets st |}.

(** The button is disabled unless [bool(participant_name)]. *)
Definition click_start (st : Session) : M Session :=
  if bool_decide (participant_name' = "") then mret st else start_refresh st.

End StartRefresh.

(** ** The page of one question (lines 144-278) *)

Definition set_current_idx (idx : Z) (st : Session) : Session :=
  {| state_initialized := state_initialized st;
     questions := questions st;
     current_idx := idx;
     participant_name := participant_name st;
     answers := answers st;
     widgets := widgets st |}.

Definition update (a : gmap string Answer) (w : gmap string bool)
    (st : Session) : Session :=
  {| state_initialized := state_initialized st;
     questions := questions st;
     current_idx := current_idx st;
     participant_name := participant_name st;
     answers := a;
     widgets := w |}.

(** Widget keys of the question on display. *)
Definition best_key (folder fname : string) : string :=
  "best::" +:+ folder +:+ "::" +:+ fname.
Definition worst_key (folder fname : string) : string :=
  "worst::" +:+ folder +:+ "::" +:+ fname.
Definition none_key (folder : string) : string :=
  "none::" +:+ folder.

Section Page.

(** [folder] and [imgs] of the question on display; the callbacks close over
    them and over the keys derived from them. *)
Variable folder : string.
Variable imgs : list string.

Definition best_keys : list string := best_key folder <$> imgs.
Definition worst_keys : list string := worst_key folder <$> imgs.

(** [for k, fname in zip(keys, imgs): st.session_state[k] = (fname == chosen)] *)
Definition mark_chosen (keys : list string) (chosen : string)
    (w : gmap string bool) : gmap string bool :=
  foldl (λ w kf, <[kf.1 := bool_decide (kf.2 = chosen)]> w) w (zip keys imgs).

(** [for k in keys: st.session_state[k] = False] *)
Definition clear_keys (keys : list string) (w : gmap string bool)
  : gmap string bool :=
  foldl (λ w k, <[k := false]> w) w keys.

(** [for k in keys: if k not in st.session_state: st.session_state[k] = False]
    (lines 193-198) *)
Definition init_keys (keys : list string) (w : gmap string bool)
  : gmap string bool :=
  foldl (λ w k, match w !! k with Some _ => w | None => <[k := false]> w end)
        w keys.

(** The controls are set again from the recorded answer (lines 200-219); for
    worst_equal the box of the first image outside the recorded list is set,
    and none when every image is in the list. *)
Definition restore_controls (prev : option Answer) (w : gmap string bool)
  : gmap string bool :=
  match prev with
  | None => w
  | Some a =>
      let w := clear_keys (best_keys ++ worst_keys) w in
      let w := <[none_key folder := false]> w in
      match a with
      | Best chosen => mark_chosen best_keys chosen w
      | WorstEqual choice =>
          let worst_of := filter (λ f, f ∉ choice) imgs in
          match worst_of with
          | worst :: _ => mark_chosen worst_keys worst w
          | [] => clear_keys worst_keys w
          end
      | NoneMode => <[none_key folder := true]> w
      end
  end.

(** The callbacks (lines 224-247). *)
Definition _select_best (chosen_fname : string) (st : Session) : Session :=
  let a := <[folder := Best chosen_fname]> (answers st) in
  let w := mark_chosen best_keys chosen_fname (widgets st) in
  let w := clear_keys worst_keys w in
  let w := <[none_key folder := false]> w in
  update a w st.

Definition _select_worst (chosen_fname : string) (st : Session) : Session :=
  let others := filter (λ f, f ≠ chosen_fname) imgs in
  let a := <[folder := WorstEqual others]> (answers st) in
  let w := mark_chosen worst_keys chosen_fname (widgets st) in
  let w := clear_keys best_keys w in
  let w := <[none_key folder := false]> w in
  update a w st.

Definition _select_none (st : Session) : Session :=
  let a := <[folder := NoneMode]> (answers st) in
  let w := clear_keys (best_keys ++ worst_keys) (widgets st) in
  let w := <[none_key folder := true]> w in
  update a w st.

(** Every control of the question. *)
Definition control_keys : list string :=
  best_keys ++ worst_keys ++ [none_key folder].

End Page.

(** One run of the script up to the callbacks' definitions: the guards
    ([None] is [st.stop()]), the clamp of the stored index, and the controls of
    the question at that index. *)
Definition rerun (st : Session) : option Session :=
  if state_initialized st then
    match questions st with
    | [] => None
    | _ :: _ =>
        let nq := Z.of_nat (length (questions st)) in
        let idx := current_idx st in
        let idx := Z.max 0 (Z.min idx (nq - 1)) in
        q ← questions st !! Z.to_nat idx;
        let folder := q_folder q in
        let imgs := q_images q in
        let w := init_keys (best_keys folder imgs ++ worst_keys folder imgs)
                   (widgets st) in
        let w := init_keys [none_key folder] w in
        let w := restore_controls folder imgs (answers st !! folder) w in
        Some (update (answers st) w (set_current_idx idx st))
    end
  else None.

(** Previous / Next (lines 270-278); a disabled button cannot be pressed. *)
Definition click_previous (st : Session) : Session :=
  let idx := current_idx st in
  if bool_decide (idx = 0%Z) then st
  else set_current_idx (Z.max 0 (idx - 1)) st.

Definition click_next (st : Session) : Session :=
  let nq := Z.of_nat (length (questions st)) in
  let idx := current_idx st in
  if bool_decide (idx >= nq - 1)%Z then st
  else set_current_idx (Z.min (nq - 1) (idx + 1)) st.

(** One user action on the page on display.  The script attaches
    [_select_best] to the check box under each image (lines 262-267); the
    other two callbacks are defined but attached to no control. *)
Inductive Event : Type :=
  | Previous
  | Next
  | SelectBest (fname : string)
  | SelectWorst (fname : string)
  | SelectNone.

Definition current_question (st : Session) : option Question :=
  questions st !! Z.to_nat (current_idx st).

(** The page is built from the session, then the action runs on it.  (A
    check box also stores its own new value before its callback runs; the
    callback overwrites every box of the question.) *)
Definition handle (ev : Event) (st : Session) : option Session :=
  st ← rerun st;
  q ← current_question st;
  let folder := q_folder q in
  let imgs := q_images q in
  Some match ev with
       | Previous => click_previous st
       | Next => click_next st
       | SelectBest f => _select_best folder imgs f st
       | SelectWorst f => _select_worst folder imgs f st
       | SelectNone => _select_none folder imgs st
       end.

(** The grid of the page (lines 178-180 and 250-267): one cell per pair of a
    row and a column, skipped when its index is past the last image; a cell
    shows the image and the check box with the image's best key. *)
Module Grid.

Record Cell : Type := mkCell {
  cell_row : nat;
  cell_col : nat;
  cell_image : string;
  cell_key : string
}.

Definition cols_per_row (imgs : list string) : nat :=
  Nat.min 4 (Nat.max 2 (length imgs)).

Definition rows (imgs : list string) : nat :=
  (length imgs + cols_per_row imgs - 1) / cols_per_row imgs.

Definition cells (folder : string) (imgs : list string) : list Cell :=
  r ← seq 0 (rows imgs);
  c ← seq 0 (cols_per_row imgs);
  let i := (r * cols_per_row imgs + c)%nat in
  match imgs !! i, best_keys folder imgs !! i with
  | Some img_file, Some key => [mkCell r c img_file key]
  | _, _ => []
  end.

End Grid.

(** ** Export (lines 287-336) *)

Record Row : Type := mkRow {
  participant : string;
  folder : string;
  selected_file : string
}.

(** Line 306 reads the global [none_label]; no statement of the module binds
    that name, so evaluating the read raises [NameError]. *)
Definition none_label : M string := raise (NameError "none_label").

Definition result_row (name : string) (ans : gmap string Answer) (qd : Question)
  : M Row :=
  let f := q_folder qd in
  match ans !! f with
  | None => mret (mkRow name f "")
  | Some (Best choice) => mret (mkRow name f choice)
  | Some (WorstEqual others) =>
      let msg :=
        match others with
        | o0 :: o1 :: _ => "equal score for " +:+ o0 +:+ " and " +:+ o1
        | _ => "equal score for " +:+ Str.join " and " others
        end in
      mret (mkRow name f msg)
  | Some NoneMode =>
      label ← none_label;
      mret (mkRow name f label)
  end.

Definition results (st : Session) : M (list Row) :=
  mapM (result_row (participant_name st) (answers st)) (questions st).

(** [answered] of line 283, the numerator of the progress bar: the folders
    with a recorded answer (a stored value is a dict, never [None]). *)
Definition answered (st : Session) : nat := size (answers st).

(** [csv.DictWriter] with the default (excel) dialect: minimal quoting,
    doubled quote characters, CRLF line ends. *)
Module Csv.

Definition dquote : ascii := "034"%char.
Definition cr : ascii := "013"%char.
Definition lf : ascii := "010"%char.

Fixpoint needs_quotes (s : string) : bool :=
  match s with
  | EmptyString => false
  | String a s' =>
      bool_decide (a ∈ [","%char; dquote; cr; lf]) || needs_quotes s'
  end.

Fixpoint double_quotes (s : string) : string :=
  match s with
  | EmptyString => EmptyString
  | String a s' =>
      if decide (a = dquote) then String a (String a (double_quotes s'))
      else String a (double_quotes s')
  end.

Definition field (s : string) : string :=
  if needs_quotes s
  then String dquote (double_quotes s +:+ String dquote EmptyString)
  else s.

Definition line (fields : list string) : string :=
  Str.join "," (field <$> fields) +:+ String cr (String lf EmptyString).

Definition fieldnames : list string := ["participant"; "folder"; "selected_file"].

Definition writerow (r : Row) : string :=
  line [participant r; folder r; selected_file r].

(** [writeheader(); writerows(results); getvalue()] *)
Definition text (rows : list Row) : string :=
  line fieldnames +:+ String.concat "" (writerow <$> rows).

End Csv.

(** [str.encode("utf-8")]: the bytes a [string] already holds. *)
Definition encode_utf8 (s : string) : list Byte.byte := list_byte_of_string s.

(** [slugify] (lines 58-60).  [str.strip] removes from both ends the white
    space of Python ([str.isspace]); in UTF-8 these characters are the bytes
    9-13 and 28-32, C2 85, C2 A0, E1 9A 80, E2 80 80 to E2 80 8A, E2 80 A8,
    E2 80 A9, E2 80 AF, E2 81 9F and E3 80 80. *)
Module Slug.

Definition is_space (a : ascii) : bool :=
  let n := nat_of_ascii a in
  ((9 <=? n)%nat && (n <=? 13)%nat) || ((28 <=? n)%nat && (n <=? 32)%nat).

Definition is_space2 (a b : ascii) : bool :=
  let m := nat_of_ascii a in
  let n := nat_of_ascii b in
  (m =? 194)%nat && ((n =? 133)%nat || (n =? 160)%nat).

Definition is_space3 (a b c : ascii) : bool :=
  let l := nat_of_ascii a in
  let m := nat_of_ascii b in
  let n := nat_of_ascii c in
  ((l =? 225)%nat && (m =? 154)%nat && (n =? 128)%nat)
  || ((l =? 226)%nat && (m =? 128)%nat
      && (((128 <=? n)%nat && (n <=? 138)%nat)
          || (n =? 168)%nat || (n =? 169)%nat || (n =? 175)%nat))
  || ((l =? 226)%nat && (m =? 129)%nat && (n =? 159)%nat)
  || ((l =? 227)%nat && (m =? 128)%nat && (n =? 128)%nat).

(** White space is removed from the front, character by character; [p2]
    and [p3] recognise the characters of two and of three bytes. *)
Fixpoint strip_front (p2 : ascii → ascii → bool)
    (p3 : ascii → ascii → ascii → bool) (s : string) : string :=
  match s with
  | EmptyString => EmptyString
  | String a s1 =>
      if is_space a then strip_front p2 p3 s1
      else
        match s1 with
        | EmptyString => s
        | String b s2 =>
            if p2 a b then strip_front p2 p3 s2
            else
              match s2 with
              | EmptyString => s
              | String c s3 => if p3 a b c then strip_front p2 p3 s3 else s
              end
        end
  end.

Definition lstrip (s : string) : string := strip_front is_space2 is_space3 s.

(** From the end the bytes of a character are met last byte first. *)
Definition rstrip (s : string) : string :=
  String.rev
    (strip_front (λ b a, is_space2 a b) (λ c b a, is_space3 a b c)
       (String.rev s)).

Definition strip (s : string) : string := rstrip (lstrip s).

Definition keep (a : ascii) : bool :=
  let n := nat_of_ascii a in
  ((65 <=? n)%nat && (n <=? 90)%nat) || ((97 <=? n)%nat && (n <=? 122)%nat)
  || ((48 <=? n)%nat && (n <=? 57)%nat)
  || bool_decide (a = "_"%char) || bool_decide (a = "-"%char).

Fixpoint replace_space_filter (s : string) : string :=
  match s with
  | EmptyString => EmptyString
  | String a s' =>
      let a := if decide (a = " "%char) then "_"%char else a in
      if keep a then String a (replace_space_filter s') else replace_space_filter s'
  end.

Definition slugify (text : string) : string :=
  replace_space_filter (strip text).

End Slug.

(** What the script observes of the disk and of the clock while exporting. *)
Record Disk : Type := {
  makedirs : string → M unit;              (* os.makedirs(p, exist_ok=True) *)
  write_text : string → string → M unit;   (* open(p, "w") and f.write(text) *)
  now : string                             (* datetime.now(), as %Y%m%d_%H%M%S *)
}.

Definition exn_str (e : exn) : string :=
  match e with
  | OSError msg => msg
  | NameError name => "name '" +:+ name +:+ "' is not defined"
  | IndexError => "list index out of range"
  end.

Inductive Notice : Type :=
  | Success (msg : string)      (* st.success *)
  | Warning (msg : string).     (* st.warning *)

(** What one run of the export section leaves behind. *)
Record Exported : Type := mkExported {
  notice : Notice;
  saved : option (string * string);     (* path and text written to disk *)
  download_data : list Byte.byte;       (* data of st.download_button *)
  download_file_name : string
}.

Definition export (d : Disk) (root_dir : string) (st : Session) : M Exported :=
  rows ← results st;
  let csv_text := Csv.text rows in
  let csv_bytes := encode_utf8 csv_text in
  let results_dir := path_join root_dir "results" in
  _ ← makedirs d results_dir;
  let fn := Slug.slugify (participant_name st) +:+ "_results_" +:+ now d +:+ ".csv" in
  let file_path := path_join results_dir fn in
  outcome ← try_except
    (_ ← write_text d file_path csv_text;
     mret (Success ("Saved results to: " +:+ file_path), Some (file_path, csv_text)))
    (λ e, mret (Warning ("Could not save results to disk: " +:+ exn_str e), None));
  mret (mkExported outcome.1 outcome.2 csv_bytes fn).

(** ** Vocabulary of the statements *)

(** The entries physically present in a directory; none when it cannot be
    listed. *)
Definition present (fs : FileSystem) (dir : string) : list string :=
  match listdir fs dir with
  | inr names => names
  | inl _ => []
  end.

(** The catalog in its original order: sorted sub-directories of the root,
    and, per folder, the sorted qualifying files. *)
Definition catalog_folders (fs : FileSystem) (root : string) : list string :=
  sort_strings (filter (λ d, isdir fs (path_join root d) = true) (present fs root)).

Definition catalog_images (fs : FileSystem) (dir : string) : list string :=
  sort_strings (filter (λ f, qualifies f = true) (present fs dir)).

(** What the handler stores for one folder of the catalog. *)
Definition question_ok (R : Random) (fs : FileSystem) (root name : string)
    (si : bool) (q : Question) : Prop :=
  q_path q = path_join root (q_folder q) ∧
  q_images q ≠ [] ∧
  (if si
   then shuffle R (name +:+ "|" +:+ q_folder q) (catalog_images fs (q_path q))
        = inr (q_images q)
   else q_images q = catalog_images fs (q_path q)).

(** Two observations of the same directory tree: the same directories, and
    in each the same entries, listed in any order ([os.listdir] promises
    none). *)
Definition same_contents (fs1 fs2 : FileSystem) : Prop :=
  (∀ p, isdir fs1 p = isdir fs2 p) ∧ (∀ p, present fs1 p ≡ₚ present fs2 p).

(** The same tree with every listing returned in reverse. *)
Definition relisted (fs : FileSystem) : FileSystem :=
  {| listdir p :=
       match listdir fs p with
       | inr names => inr (reverse names)
       | inl e => inl e
       end;
     isdir := isdir fs |}.

(** A generator whose draws are all [0]: under [shuffle] it rotates the list
    by one place, so a list of two entries is swapped. *)
Program Definition low_draws : Random :=
  {| rng_state := unit; rng_seed _ := tt; randbelow _ _ := (0%nat, tt) |}.
Next Obligation. intros; simpl; lia. Qed.

(** A generator whose draw below [n] is always [n - 1]: [shuffle] then swaps
    every entry with itself. *)
Program Definition high_draws : Random :=
  {| rng_state := unit; rng_seed _ := tt; randbelow _ n := (pred n, tt) |}.
Next Obligation. intros; simpl; lia. Qed.

(** A root with folder [A] holding both allowlisted files (and one more
    image) and folder [B] holding none of them. *)
Definition fs_AB : FileSystem :=
  fs_of_table
    [("/data", ["B"; "A"; "readme.txt"]);
     ("/data/A", ["No Intervension _ Alpha_ 0_5.png"; "extra.png";
                  "Mirror Change Top Layers _ Alpha_ 0_5.png"]);
     ("/data/B", ["other.png"; "notes.txt"])].

(** The sessions a participant can be in: anything left by Start / Refresh
    (enabled once a name is given), followed by any actions on the pages
    shown. *)
Inductive reachable (R : Random) (fs : FileSystem) (root : string)
  : Session → Prop :=
  | reach_start name sq si st st' :
      name ≠ "" →
      start_refresh R fs root name sq si st = inr st' →
      reachable R fs root st'
  | reach_event ev st st' :
      reachable R fs root st →
      handle ev st = Some st' →
      reachable R fs root st'.

Definition nq (st : Session) : Z := Z.of_nat (length (questions st)).

Definition index_in_range (st : Session) : Prop :=
  (0 ≤ current_idx st ≤ nq st - 1)%Z.

(** The session right after Start on [fs_AB]. *)
Definition session_AB : Session :=
  match start_refresh high_draws fs_AB "/data" "name" true true initial_session with
  | inr st => st
  | inl _ => initial_session
  end.

(** At most one control of the question is true. *)
Definition exclusive (folder : string) (imgs : list string)
    (w : gmap string bool) : Prop :=
  ∀ k1 k2, k1 ∈ control_keys folder imgs → k2 ∈ control_keys folder imgs →
           w !! k1 = Some true → w !! k2 = Some true → k1 = k2.

(** The Result Row that the Exporter contract of the specification gives a
    question: empty for an unanswered folder, the file for Best, the
    "equal score" sentence for WorstEqual with one or more entries.  The
    contract says nothing of WorstEqual with no entry, and it names no value
    for the None variant. *)
Definition spec_row (name : string) (ans : gmap string Answer)
    (q : Question) (r : Row) : Prop :=
  participant r = name ∧ folder r = q_folder q ∧
  match ans !! q_folder q with
  | None => selected_file r = ""
  | Some (Best f) => selected_file r = f
  | Some (WorstEqual (a :: b :: _)) =>
      selected_file r = "equal score for " +:+ a +:+ " and " +:+ b
  | Some (WorstEqual [a]) => selected_file r = "equal score for " +:+ a
  | Some (WorstEqual []) => True
  | Some NoneMode => False
  end.

(** Two folders with images; the catalog order is F1, F2. *)
Definition fs_F1F2 : FileSystem :=
  fs_of_table
    [("/data", ["F2"; "F1"]);
     ("/data/F1", ["No Intervension _ Alpha_ 0_5.png";
                   "Mirror Change Top Layers _ Alpha_ 0_5.png"]);
     ("/data/F2", ["No Intervension _ Alpha_ 0_5.png"])].

(** Participant "name" starts with both randomize options on, goes to the
    second page and selects an image there.  The draws of [low_draws] are the
    ones CPython's generator makes for the seeds "name|questions" and
    "name|F1" on lists of two entries. *)
Definition session_shuffled : option Session :=
  match start_refresh low_draws fs_F1F2 "/data" "name" true true initial_session with
  | inr st =>
      st ← handle Next st;
      handle (SelectBest "No Intervension _ Alpha_ 0_5.png") st
  | inl _ => None
  end.

(** The session after the none callback on the only page of [session_AB]. *)
Definition session_none : Session :=
  default session_AB (handle SelectNone session_AB).

(** A disk on which nothing can be created or written. *)
Definition read_only_disk : Disk :=
  {| makedirs _ := inl (OSError "[Errno 30] Read-only file system");
     write_text _ _ := inl (OSError "[Errno 30] Read-only file system");
     now := "20250101_120000" |}.

(** A disk whose results directory exists but refuses new files. *)
Definition no_new_files_disk : Disk :=
  {| makedirs _ := inr ();
     write_text _ _ := inl (OSError "[Errno 13] Permission denied");
     now := "20250101_120000" |}.

(** The actions the page really offers: the two buttons, and the check box
    of an image of the question on display. *)
Inductive offered (st : Session) : Event → Prop :=
  | offer_previous : offered st Previous
  | offer_next : offered st Next
  | offer_best r q f :
      rerun st = Some r → current_question r = Some q → f ∈ q_images q →
      offered st (SelectBest f).

(** The sessions reached through those actions only. *)
Inductive ui_reachable (R : Random) (fs : FileSystem) (root : string)
  : Session → Prop :=
  | ui_start name sq si st st' :
      name ≠ "" →
      start_refresh R fs root name sq si st = inr st' →
      ui_reachable R fs root st'
  | ui_event ev st st' :
      ui_reachable R fs root st →
      offered st ev →
      handle ev st = Some st' →
      ui_reachable R fs root st'.

(** The value a control of the page has once the page is rebuilt from the
    recorded answer [a]. *)
Definition restored_value (folder : string) (imgs : list string) (a : Answer)
    (k : string) : bool :=
  match a with
  | Best chosen => bool_decide (k = best_key folder chosen ∧ chosen ∈ imgs)
  | WorstEqual choice =>
      match filter (λ f, f ∉ choice) imgs with
      | worst :: _ => bool_decide (k = worst_key folder worst)
      | [] => false
      end
  | NoneMode => bool_decide (k = none_key folder)
  end.




(** The entry of a list at an index, passed through [g], as a list of at
    most one element. *)
Definition at_index {A B : Type} (l : list A) (g : nat → A → B) (i : nat)
  : list B :=
  match l !! i with
  | Some x => [g i x]
  | None => []
  end.




(** The session of [session_shuffled], or the initial one. *)
Definition session_F1F2 : Session := default initial_session session_shuffled.

(** The page of [session_F1F2] once built, its question, and the stored
    control values with every key that is not on that page dropped. *)
Definition page_F1F2 : Session := default session_F1F2 (rerun session_F1F2).

Definition question_F1 : Question :=
  {| q_folder := "F1"; q_path := "/data/F1";
     q_images := ["No Intervension _ Alpha_ 0_5.png";
                  "Mirror Change Top Layers _ Alpha_ 0_5.png"] |}.

Definition on_page_F1F2 : gmap string bool :=
  filter (λ kv, kv.1 ∈ control_keys (q_folder question_F1) (q_images question_F1))
         (widgets page_F1F2).

(** Start / Refresh pressed again in [session_F1F2], which is on its second
    page with one answer recorded. *)
Definition restarted_F1F2 : Session :=
  match start_refresh low_draws fs_F1F2 "/data" "name" true true
          session_F1F2 with
  | inr st => st
  | inl _ => initial_session
  end.

(** * Properties *)

Example splitext_png :
  splitext "No Intervension _ Alpha_ 0_5.png" = ("No Intervension _ Alpha_ 0_5", ".png").
Proof. reflexivity. Qed.

Example splitext_hidden : splitext ".bashrc" = (".bashrc", "").
Proof. reflexivity. Qed.

Example splitext_dir : splitext "a.b/c" = ("a.b/c", "").
Proof. reflexivity. Qed.

Example path_join_ex : path_join "/srv/model_outputs" "A" = "/srv/model_outputs/A".
Proof. reflexivity. Qed.

Example qualifies_ex :
  qualifies "No Intervension _ Alpha_ 0_5.png" = true ∧ qualifies "other.png" = false.
Proof. split; vm_compute; reflexivity. Qed.

Example shuffle_low_draws :
  shuffle low_draws "seed" ["F1"; "F2"] = inr ["F2"; "F1"] ∧
  shuffle low_draws "seed" [1; 2; 3; 4; 5]%nat = inr [2; 3; 4; 5; 1]%nat.
Proof. split; reflexivity. Qed.

Example csv_quoting :
  Csv.field "a,b" = String Csv.dquote ("a,b" +:+ String Csv.dquote EmptyString) ∧
  Csv.field "img1.png" = "img1.png".
Proof. split; reflexivity. Qed.

Example slugify_ex : Slug.slugify "Ofek B. (2)" = "Ofek_B_2".
Proof. reflexivity. Qed.

Example list_folders_ex :
  list_folders (fs_of_table [("/r", ["B"; "x.txt"; "A"]); ("/r/A", []); ("/r/B", [])]) "/r"
  = inr ["A"; "B"].
Proof. vm_compute. reflexivity. Qed.

(** ** The catalog loader *)

Lemma list_folders_eq fs root :
  list_folders fs root = inr (catalog_folders fs root).
Proof.
  unfold list_folders, catalog_folders, present, try_except.
  by destruct (listdir fs root).
Qed.

Lemma list_images_eq fs dir :
  list_images fs dir = inr (catalog_images fs dir).
Proof.
  unfold list_images, catalog_images, present, try_except.
  by destruct (listdir fs dir).
Qed.

Lemma sort_strings_perm l : sort_strings l ≡ₚ l.
Proof. apply merge_sort_Permutation. Qed.

Lemma sort_strings_sorted l : Sorted String.le (sort_strings l).
Proof. apply (Sorted_merge_sort String.le). Qed.

Lemma qualifies_spec f :
  qualifies f = true ↔ f ∈ ALLOWED_IMAGES ∧ Str.lower (splitext f).2 ∈ IMG_EXTS.
Proof.
  unfold qualifies. rewrite andb_true_iff, !bool_decide_eq_true. tauto.
Qed.

Lemma elem_of_catalog_images fs dir f :
  f ∈ catalog_images fs dir ↔
  f ∈ present fs dir ∧ f ∈ ALLOWED_IMAGES ∧ Str.lower (splitext f).2 ∈ IMG_EXTS.
Proof.
  unfold catalog_images. rewrite sort_strings_perm, list_elem_of_filter.
  rewrite qualifies_spec. tauto.
Qed.

(** C4. Neither [list_folders] nor [list_images] raises, whatever the file
    system answers; when the directory cannot be listed (any exception of
    [os.listdir]) both return the empty list. *)
Theorem C4_catalog_loader_fail_soft (fs : FileSystem) (dir : string) :
  (∃ l, list_folders fs dir = inr l) ∧
  (∃ l, list_images fs dir = inr l) ∧
  match listdir fs dir with
  | inl _ => list_folders fs dir = inr [] ∧ list_images fs dir = inr []
  | inr names =>
      list_folders fs dir
        = inr (sort_strings (filter (λ d, isdir fs (path_join dir d) = true) names)) ∧
      list_images fs dir
        = inr (sort_strings (filter (λ f, qualifies f = true) names))
  end.
Proof.
  split; [rewrite list_folders_eq; eauto|].
  split; [rewrite list_images_eq; eauto|].
  unfold list_folders, list_images, try_except.
  destruct (listdir fs dir); simpl; auto.
Qed.

(** ** The seeded shuffle *)

Lemma swap_ok {A} (x : list A) i j :
  (i < length x)%nat → (j < length x)%nat →
  ∃ x', swap x i j = inr x' ∧ x' ≡ₚ x.
Proof.
  intros Hi Hj. unfold swap.
  destruct (lookup_lt_is_Some_2 x i Hi) as [xi Hxi].
  destruct (lookup_lt_is_Some_2 x j Hj) as [xj Hxj].
  rewrite Hxi, Hxj. eexists; split; [reflexivity|].
  by apply Permutation_insert_swap.
Qed.

Lemma shuffle_loop_ok {A} R i : ∀ s (x : list A),
  (i < length x)%nat ∨ i = 0%nat →
  ∃ x', shuffle_loop R i s x = inr x' ∧ x' ≡ₚ x.
Proof.
  induction i as [|i IH]; intros s x Hi; simpl.
  - by exists x.
  - destruct Hi as [Hi|]; [|done].
    pose proof (randbelow_lt R s (S (S i)) ltac:(lia)) as Hj.
    destruct (randbelow R s (S (S i))) as [j s']; simpl in Hj.
    destruct (swap_ok x (S i) j) as (x' & -> & Hx'); [lia..|]. simpl.
    destruct (IH s' x') as (x'' & -> & Hx'').
    { left. rewrite Hx'. lia. }
    exists x''. split; [done|]. by rewrite Hx''.
Qed.

Lemma shuffle_ok {A} R seed (x : list A) :
  ∃ x', shuffle R seed x = inr x' ∧ x' ≡ₚ x.
Proof.
  apply shuffle_loop_ok. destruct x; simpl; [by right|left; lia].
Qed.

(** ** Start / Refresh *)

Section StartRefreshFacts.

Variable R : Random.
Variable fs : FileSystem.
Variable root : string.
Variable name : string.
Variables sq si : bool.

Lemma question_ok_perm q :
  question_ok R fs root name si q →
  q_images q ≡ₚ catalog_images fs (q_path q).
Proof.
  intros (_ & _ & Hi). destruct si; [|by rewrite Hi].
  destruct (shuffle_ok R (name +:+ "|" +:+ q_folder q)
              (catalog_images fs (q_path q))) as (x' & Hx' & Hp).
  rewrite Hx' in Hi. by simplify_eq.
Qed.

Lemma build_questions_ok folders :
  ∃ qs, build_questions R fs name si root folders = inr qs ∧
    q_folder <$> qs
      = filter (λ f, catalog_images fs (path_join root f) ≠ []) folders ∧
    Forall (question_ok R fs root name si) qs.
Proof.
  induction folders as [|f rest (qs & Hqs & Hf & Hall)]; simpl.
  { exists []. by repeat split. }
  rewrite list_images_eq; simpl.
  set (imgs := catalog_images fs (path_join root f)).
  assert (∃ imgs', (if si then shuffle R (name +:+ "|" +:+ f) imgs
                    else mret imgs) = inr imgs' ∧ imgs' ≡ₚ imgs)
    as (imgs' & Himgs & Hp).
  { destruct si; [apply shuffle_ok|by exists imgs]. }
  rewrite Himgs; simpl. rewrite Hqs; simpl.
  rewrite filter_cons. fold imgs.
  destruct imgs' as [|i0 imgs'].
  - apply Permutation_nil_l in Hp. rewrite <-Hp.
    rewrite decide_False by (by intros []). by exists qs.
  - rewrite decide_True.
    2:{ intros E. rewrite E in Hp. by apply Permutation_nil_r in Hp. }
    eexists; split; [reflexivity|]. split; [by rewrite fmap_cons, Hf|].
    constructor; [|done]. repeat split; simpl; [done|].
    fold imgs. destruct si; [done|]. by injection Himgs as <-.
Qed.

(** With every name encodable, so that seeding cannot raise, the handler
    completes; its question list is built from the folder order [order], the
    seeded shuffle of the catalog when question shuffling is on and the
    catalog itself when it is off. *)
Lemma start_refresh_ok st :
  ∃ order qs,
    (if sq
     then shuffle R (name +:+ "|questions") (catalog_folders fs root) = inr order
     else order = catalog_folders fs root) ∧
    order ≡ₚ catalog_folders fs root ∧
    q_folder <$> qs
      = filter (λ f, catalog_images fs (path_join root f) ≠ []) order ∧
    Forall (question_ok R fs root name si) qs ∧
    start_refresh R fs root name sq si st
      = inr {| state_initialized := true; questions := qs; current_idx := 0;
               participant_name := name; answers := ∅; widgets := widgets st |}.
Proof.
  unfold start_refresh. rewrite list_folders_eq; simpl.
  set (folders := catalog_folders fs root).
  assert (∃ order, (if sq then shuffle R (name +:+ "|questions") folders
                    else mret folders) = inr order ∧ order ≡ₚ folders)
    as (order & Horder & Hp).
  { destruct sq; [apply shuffle_ok|by exists folders]. }
  destruct (build_questions_ok order) as (qs & Hqs & Hf & Hall).
  exists order, qs. rewrite Horder; simpl. rewrite Hqs; simpl.
  repeat split; try done.
  destruct sq; [done|]. by injection Horder as <-.
Qed.

End StartRefreshFacts.

Lemma catalog_images_nonempty fs dir :
  catalog_images fs dir ≠ [] ↔
  ∃ f, f ∈ present fs dir ∧ f ∈ ALLOWED_IMAGES ∧ Str.lower (splitext f).2 ∈ IMG_EXTS.
Proof.
  split.
  - destruct (catalog_images fs dir) as [|f l] eqn:E; [done|]. intros _.
    exists f. apply elem_of_catalog_images. rewrite E. left.
  - intros (f & Hf) E. apply elem_of_catalog_images in Hf.
    rewrite E in Hf. by apply not_elem_of_nil in Hf.
Qed.

(** C9. After Start / Refresh every question belongs to a folder of the
    catalog, its image list holds exactly the files present in that folder
    that are in the allowlist of two names and carry an image extension, and the folders
    with a question are exactly the catalog folders with at least one such
    file; the root with folders A (both allowlisted files) and B (neither)
    gives the single question A. *)
Theorem C9_questions_hold_allowlisted_images :
  size ALLOWED_IMAGES = 2%nat ∧
  (∀ R fs root name sq si st,
     ∃ st', start_refresh R fs root name sq si st = inr st' ∧
       (∀ q, q ∈ questions st' →
          q_folder q ∈ catalog_folders fs root ∧
          q_path q = path_join root (q_folder q) ∧
          q_images q ≡ₚ filter (λ f, qualifies f = true) (present fs (q_path q)) ∧
          ∀ f, f ∈ q_images q ↔
               f ∈ present fs (q_path q) ∧ f ∈ ALLOWED_IMAGES ∧
               Str.lower (splitext f).2 ∈ IMG_EXTS) ∧
       q_folder <$> questions st'
         ≡ₚ filter (λ d, catalog_images fs (path_join root d) ≠ [])
              (catalog_folders fs root) ∧
       (∀ d, d ∈ q_folder <$> questions st' ↔
          d ∈ catalog_folders fs root ∧
          ∃ f, f ∈ present fs (path_join root d) ∧ f ∈ ALLOWED_IMAGES ∧
               Str.lower (splitext f).2 ∈ IMG_EXTS)) ∧
  (∀ R name sq si st,
     ∃ st', start_refresh R fs_AB "/data" name sq si st = inr st' ∧
       q_folder <$> questions st' = ["A"]).
Proof.
  assert (∀ R fs root name sq si st,
     ∃ st', start_refresh R fs root name sq si st = inr st' ∧
       Forall (question_ok R fs root name si) (questions st') ∧
       q_folder <$> questions st'
         ≡ₚ filter (λ d, catalog_images fs (path_join root d) ≠ [])
              (catalog_folders fs root)) as Hgen.
  { intros. destruct (start_refresh_ok R fs root name sq si st)
      as (order & qs & _ & Hp & Hf & Hall & ->).
    eexists; split; [reflexivity|]. simpl. split; [done|].
    by rewrite Hf, Hp. }
  split; [vm_compute; reflexivity|].
  split.
  - intros. destruct (Hgen R fs root name sq si st) as (st' & Hst & Hall & Hp).
    exists st'. split; [done|]. split; [|split; [done|]].
    + intros q Hq. rewrite Forall_forall in Hall. pose proof (Hall q Hq) as Hok.
      assert (q_folder q ∈ q_folder <$> questions st') as Hin
        by (by apply list_elem_of_fmap_2).
      rewrite Hp, list_elem_of_filter in Hin.
      split; [apply Hin|]. split; [apply Hok|].
      pose proof (question_ok_perm _ _ _ _ _ _ Hok) as Hperm.
      split.
      * rewrite Hperm. apply sort_strings_perm.
      * intros f. rewrite Hperm. apply elem_of_catalog_images.
    + intros d. rewrite Hp, list_elem_of_filter, catalog_images_nonempty. tauto.
  - intros. destruct (Hgen R fs_AB "/data" name sq si st) as (st' & Hst & _ & Hp).
    exists st'. split; [done|].
    assert (filter (λ d, catalog_images fs_AB (path_join "/data" d) ≠ [])
              (catalog_folders fs_AB "/data") = ["A"]) as E
      by (vm_compute; reflexivity).
    rewrite E in Hp. by apply Permutation_singleton_r in Hp.
Qed.

Lemma same_contents_relisted fs : same_contents fs (relisted fs).
Proof.
  split; [done|]. intros p. unfold present, relisted; simpl.
  destruct (listdir fs p); [done|]. by rewrite reverse_Permutation.
Qed.

Lemma sort_strings_unique l1 l2 : l1 ≡ₚ l2 → sort_strings l1 = sort_strings l2.
Proof.
  intros Hp. apply (Sorted_unique String.le); try apply sort_strings_sorted.
  by rewrite !sort_strings_perm.
Qed.

Lemma catalog_folders_same fs1 fs2 root :
  same_contents fs1 fs2 → catalog_folders fs1 root = catalog_folders fs2 root.
Proof.
  intros [Hd Hp]. unfold catalog_folders. apply sort_strings_unique.
  rewrite (Hp root). erewrite list_filter_iff; [done|].
  intros d; simpl. by rewrite Hd.
Qed.

Lemma catalog_images_same fs1 fs2 dir :
  same_contents fs1 fs2 → catalog_images fs1 dir = catalog_images fs2 dir.
Proof.
  intros [_ Hp]. unfold catalog_images. apply sort_strings_unique.
  by rewrite (Hp dir).
Qed.

Lemma build_questions_same R fs1 fs2 name si root folders :
  same_contents fs1 fs2 →
  build_questions R fs1 name si root folders
  = build_questions R fs2 name si root folders.
Proof.
  intros Hs. induction folders as [|f rest IH]; [done|].
  simpl. rewrite !list_images_eq, IH.
  by rewrite (catalog_images_same fs1 fs2 _ Hs).
Qed.

(** C5. With both randomize options on, Start / Refresh stores the same
    question list whenever the participant name and the contents of the
    directory tree are the same, whatever the session state before and in
    whatever order the directories happen to be listed: the folder order is
    the shuffle of the catalog seeded with "{name}|questions" (kept to the
    folders that have images) and each image list is the shuffle of the
    folder's catalog images seeded with "{name}|{folder}". *)
Theorem C5_same_name_same_orders R fs1 fs2 root name (st1 st2 : Session) :
  same_contents fs1 fs2 →
  ∃ order qs s1 s2,
    shuffle R (name +:+ "|questions") (catalog_folders fs1 root) = inr order ∧
    start_refresh R fs1 root name true true st1 = inr s1 ∧
    start_refresh R fs2 root name true true st2 = inr s2 ∧
    questions s1 = qs ∧ questions s2 = qs ∧
    q_folder <$> qs
      = filter (λ d, catalog_images fs1 (path_join root d) ≠ []) order ∧
    Forall (λ q, q_path q = path_join root (q_folder q) ∧
                 shuffle R (name +:+ "|" +:+ q_folder q)
                   (catalog_images fs1 (q_path q)) = inr (q_images q)) qs.
Proof.
  intros Hs.
  destruct (start_refresh_ok R fs1 root name true true st1)
    as (order & qs & Ho & _ & Hf & Hall & H1).
  destruct (start_refresh_ok R fs2 root name true true st2)
    as (order' & qs' & Ho' & _ & Hf' & Hall' & H2).
  rewrite <-(catalog_folders_same fs1 fs2 root Hs) in Ho'.
  exists order, qs. eexists; eexists.
  split; [exact Ho|]. split; [exact H1|].
  assert (order' = order) as -> by congruence.
  assert (qs' = qs) as ->.
  { unfold start_refresh in H1, H2.
    rewrite list_folders_eq in H1, H2; simpl in H1, H2.
    rewrite <-(catalog_folders_same fs1 fs2 root Hs) in H2.
    rewrite Ho in H1, H2; simpl in H1, H2.
    rewrite <-(build_questions_same R fs1 fs2 name true root order Hs) in H2.
    destruct (build_questions R fs1 name true root order) as [e|qs0];
      simpl in H1, H2; [discriminate|].
    injection H1 as <-. by injection H2 as <-. }
  split; [exact H2|]. repeat split; try done.
  eapply Forall_impl; [exact Hall|]. intros q (? & ? & ?). by split.
Qed.

Lemma C5_same_name_same_orders_witness :
  same_contents fs_F1F2 (relisted fs_F1F2) ∧
  ∃ order qs s1 s2,
    shuffle low_draws "name|questions" (catalog_folders fs_F1F2 "/data")
      = inr order ∧
    start_refresh low_draws fs_F1F2 "/data" "name" true true initial_session
      = inr s1 ∧
    start_refresh low_draws (relisted fs_F1F2) "/data" "name" true true session_none
      = inr s2 ∧
    questions s1 = qs ∧ questions s2 = qs ∧
    q_folder <$> qs
      = filter (λ d, catalog_images fs_F1F2 (path_join "/data" d) ≠ []) order ∧
    Forall (λ q, q_path q = path_join "/data" (q_folder q) ∧
                 shuffle low_draws ("name" +:+ "|" +:+ q_folder q)
                   (catalog_images fs_F1F2 (q_path q)) = inr (q_images q)) qs.
Proof.
  split; [apply same_contents_relisted|].
  exact (C5_same_name_same_orders low_draws fs_F1F2 (relisted fs_F1F2) "/data"
           "name" initial_session session_none (same_contents_relisted fs_F1F2)).
Defined.

(** ** Navigation *)

Lemma rerun_Some st r :
  rerun st = Some r →
  state_initialized st = true ∧ questions st ≠ [] ∧
  state_initialized r = true ∧ questions r = questions st ∧
  answers r = answers st ∧ participant_name r = participant_name st ∧
  current_idx r = Z.max 0 (Z.min (current_idx st) (nq st - 1)).
Proof.
  unfold rerun, nq. destruct (state_initialized st) eqn:Hi; [|done].
  destruct (questions st) as [|q0 qs] eqn:E; [done|].
  destruct (_ !! _) as [q|]; [simpl|done]. intros [= <-]. simpl.
  by rewrite Hi, E.
Qed.

Lemma rerun_is_Some st :
  state_initialized st = true → questions st ≠ [] → is_Some (rerun st).
Proof.
  unfold rerun. intros -> Hq. destruct (questions st) as [|q0 qs] eqn:E; [done|].
  destruct (lookup_lt_is_Some_2 (q0 :: qs)
              (Z.to_nat (Z.max 0 (Z.min (current_idx st)
                                    (Z.of_nat (length (q0 :: qs)) - 1)))))
    as [q ->]; [cbn [length]; lia|by eexists].
Qed.

Lemma rerun_index_in_range st r : rerun st = Some r → index_in_range r.
Proof.
  intros (_ & Hq & _ & Hqs & _ & _ & Hi)%rerun_Some.
  unfold index_in_range, nq in *. rewrite Hqs, Hi.
  destruct (questions st); [done|]. cbn [length]. lia.
Qed.

(** One action: the page is built, its question exists, and the action runs
    on the page. *)
Lemma handle_Some ev st st' :
  handle ev st = Some st' →
  ∃ r q, rerun st = Some r ∧ current_question r = Some q ∧
    st' = match ev with
          | Previous => click_previous r
          | Next => click_next r
          | SelectBest f => _select_best (q_folder q) (q_images q) f r
          | SelectWorst f => _select_worst (q_folder q) (q_images q) f r
          | SelectNone => _select_none (q_folder q) (q_images q) r
          end.
Proof.
  unfold handle. destruct (rerun st) as [r|]; [simpl|done].
  destruct (current_question r) as [q|] eqn:Hq; [simpl|done]. intros [= <-].
  by exists r, q.
Qed.

Lemma handle_is_Some ev st :
  state_initialized st = true → questions st ≠ [] → is_Some (handle ev st).
Proof.
  intros Hinit Hq. destruct (rerun_is_Some st Hinit Hq) as [r Hr].
  unfold handle. rewrite Hr; simpl.
  pose proof (rerun_index_in_range _ _ Hr) as Hi.
  apply rerun_Some in Hr as (_ & _ & _ & Hqs & _).
  destruct (lookup_lt_is_Some_2 (questions r) (Z.to_nat (current_idx r)))
    as [q Hcq].
  { unfold index_in_range, nq in Hi. lia. }
  unfold current_question. rewrite Hcq. by eexists.
Qed.

(** One action keeps the session initialized, keeps its question list and
    leaves the stored index in range. *)
Lemma handle_preserves ev st st' :
  handle ev st = Some st' →
  state_initialized st' = true ∧ questions st' = questions st ∧
  index_in_range st'.
Proof.
  intros (r & q & Hr & _ & ->)%handle_Some.
  pose proof (rerun_index_in_range _ _ Hr) as Hi.
  apply rerun_Some in Hr as (_ & _ & Hinit & Hqs & _).
  unfold index_in_range, nq in *.
  destruct ev; simpl; unfold click_previous, click_next;
    repeat case_bool_decide; simpl in *; repeat split; try done; lia.
Qed.





(** ** Selection callbacks *)

Lemma best_key_inj folder : Inj (=) (=) (best_key folder).
Proof.
  intros f1 f2 E. unfold best_key in E.
  by repeat apply (inj (String.append _)) in E.
Qed.

Lemma worst_key_inj folder : Inj (=) (=) (worst_key folder).
Proof.
  intros f1 f2 E. unfold worst_key in E.
  by repeat apply (inj (String.append _)) in E.
Qed.

Lemma best_worst_key folder f1 f2 : best_key folder f1 ≠ worst_key folder f2.
Proof. discriminate. Qed.

Lemma best_none_key folder f : best_key folder f ≠ none_key folder.
Proof. discriminate. Qed.

Lemma worst_none_key folder f : worst_key folder f ≠ none_key folder.
Proof. discriminate. Qed.

Lemma best_keys_worst_keys folder imgs k :
  k ∈ best_keys folder imgs → k ∉ worst_keys folder imgs.
Proof.
  unfold best_keys, worst_keys. rewrite !list_elem_of_fmap.
  intros (f1 & -> & _) (f2 & E & _). by apply best_worst_key in E.
Qed.

Lemma none_key_best_keys folder imgs : none_key folder ∉ best_keys folder imgs.
Proof.
  unfold best_keys. rewrite list_elem_of_fmap.
  intros (f & E & _). symmetry in E. by apply best_none_key in E.
Qed.

Lemma none_key_worst_keys folder imgs : none_key folder ∉ worst_keys folder imgs.
Proof.
  unfold worst_keys. rewrite list_elem_of_fmap.
  intros (f & E & _). symmetry in E. by apply worst_none_key in E.
Qed.

Section KeyLoops.

Variable key : string → string.
Hypothesis key_inj : Inj (=) (=) key.
Variable chosen : string.

Lemma lookup_mark_chosen_notin imgs (w : gmap string bool) k :
  k ∉ key <$> imgs →
  mark_chosen imgs (key <$> imgs) chosen w !! k = w !! k.
Proof.
  unfold mark_chosen. revert w.
  induction imgs as [|f imgs IH]; intros w Hk; [done|].
  rewrite fmap_cons, not_elem_of_cons in Hk. destruct Hk as [Hk1 Hk2].
  simpl. rewrite IH by done. by rewrite lookup_insert_ne.
Qed.

Lemma lookup_mark_chosen_in imgs (w : gmap string bool) f :
  f ∈ imgs →
  mark_chosen imgs (key <$> imgs) chosen w !! key f
    = Some (bool_decide (f = chosen)).
Proof.
  unfold mark_chosen. revert w.
  induction imgs as [|g imgs IH]; intros w Hf; [by apply elem_of_nil in Hf|].
  rewrite fmap_cons. cbn [zip_with foldl fst snd].
  destruct (decide (f ∈ imgs)) as [Hin|Hnin]; [by apply IH|].
  apply elem_of_cons in Hf as [->|]; [|done].
  pose proof (lookup_mark_chosen_notin imgs (<[key g := bool_decide (g = chosen)]> w)
                (key g)) as Hout.
  unfold mark_chosen in Hout. rewrite Hout.
  - by rewrite lookup_insert_eq.
  - rewrite list_elem_of_fmap. intros (g' & E & ?). apply key_inj in E. by subst.
Qed.

End KeyLoops.

Lemma lookup_clear_keys_in keys (w : gmap string bool) k :
  k ∈ keys → clear_keys keys w !! k = Some false.
Proof.
  unfold clear_keys. revert w.
  induction keys as [|k' keys IH] using rev_ind; intros w Hk;
    [by apply elem_of_nil in Hk|].
  rewrite foldl_snoc. apply elem_of_app in Hk as [Hk|Hk].
  - destruct (decide (k' = k)) as [->|]; [by rewrite lookup_insert_eq|].
    rewrite lookup_insert_ne by done. by apply IH.
  - apply list_elem_of_singleton in Hk as ->. by rewrite lookup_insert_eq.
Qed.

Lemma lookup_clear_keys_notin keys (w : gmap string bool) k :
  k ∉ keys → clear_keys keys w !! k = w !! k.
Proof.
  unfold clear_keys. revert w.
  induction keys as [|k' keys IH]; intros w Hk; [done|].
  apply not_elem_of_cons in Hk as [? ?]. simpl.
  rewrite IH by done. by rewrite lookup_insert_ne.
Qed.

(** The controls of a question after each callback. *)
Lemma widgets_select_best folder imgs x st k :
  k ∈ control_keys folder imgs →
  widgets (_select_best folder imgs x st) !! k
    = Some (bool_decide (k = best_key folder x ∧ x ∈ imgs)).
Proof.
  unfold control_keys, _select_best; simpl. rewrite !elem_of_app.
  intros [Hk|[Hk|Hk]].
  - rewrite lookup_insert_ne by (intros <-; by apply none_key_best_keys in Hk).
    rewrite lookup_clear_keys_notin by (by apply best_keys_worst_keys).
    unfold best_keys in *. apply list_elem_of_fmap in Hk as (f & -> & Hf).
    rewrite (lookup_mark_chosen_in _ (best_key_inj folder)) by done.
    f_equal. apply bool_decide_ext. split.
    + by intros ->.
    + intros [E _]. by apply best_key_inj in E.
  - rewrite lookup_insert_ne by (intros <-; by apply none_key_worst_keys in Hk).
    rewrite lookup_clear_keys_in by done. f_equal. symmetry.
    apply bool_decide_eq_false. intros [-> _].
    unfold worst_keys in Hk. apply list_elem_of_fmap in Hk as (f & E & _).
    by apply best_worst_key in E.
  - apply list_elem_of_singleton in Hk as ->. rewrite lookup_insert_eq.
    rewrite bool_decide_eq_false_2; [done|]. intros [E _].
    symmetry in E. by apply best_none_key in E.
Qed.

Lemma widgets_select_worst folder imgs x st k :
  k ∈ control_keys folder imgs →
  widgets (_select_worst folder imgs x st) !! k
    = Some (bool_decide (k = worst_key folder x ∧ x ∈ imgs)).
Proof.
  unfold control_keys, _select_worst; simpl. rewrite !elem_of_app.
  intros [Hk|[Hk|Hk]].
  - rewrite lookup_insert_ne by (intros <-; by apply none_key_best_keys in Hk).
    rewrite lookup_clear_keys_in by done. f_equal. symmetry.
    apply bool_decide_eq_false. intros [-> _].
    unfold best_keys in Hk. apply list_elem_of_fmap in Hk as (f & E & _).
    symmetry in E. by apply best_worst_key in E.
  - rewrite lookup_insert_ne by (intros <-; by apply none_key_worst_keys in Hk).
    rewrite lookup_clear_keys_notin
      by (intros Hb; by apply best_keys_worst_keys in Hb).
    unfold worst_keys in *. apply list_elem_of_fmap in Hk as (f & -> & Hf).
    rewrite (lookup_mark_chosen_in _ (worst_key_inj folder)) by done.
    f_equal. apply bool_decide_ext. split.
    + by intros ->.
    + intros [E _]. by apply worst_key_inj in E.
  - apply list_elem_of_singleton in Hk as ->. rewrite lookup_insert_eq.
    rewrite bool_decide_eq_false_2; [done|]. intros [E _].
    symmetry in E. by apply worst_none_key in E.
Qed.

Lemma widgets_select_none folder imgs st k :
  k ∈ control_keys folder imgs →
  widgets (_select_none folder imgs st) !! k
    = Some (bool_decide (k = none_key folder)).
Proof.
  unfold control_keys, _select_none; simpl. rewrite app_assoc, elem_of_app.
  intros [Hk|Hk].
  - assert (k ≠ none_key folder) as Hne.
    { intros ->. apply elem_of_app in Hk as [Hk|Hk].
      - by apply none_key_best_keys in Hk.
      - by apply none_key_worst_keys in Hk. }
    rewrite lookup_insert_ne by done. rewrite lookup_clear_keys_in by done.
    by rewrite bool_decide_eq_false_2.
  - apply list_elem_of_singleton in Hk as ->. rewrite lookup_insert_eq.
    by rewrite bool_decide_eq_true_2.
Qed.

(** C6. A folder has one recorded answer, which a new selection replaces:
    Best(x) followed by Best(y) leaves Best(y) for the folder and leaves the
    other folders as they were.  After each of the three callbacks at most one
    control of the question is true: selecting best leaves only the best box
    of the chosen image set and clears every worst box and the none box,
    selecting worst leaves only the worst box of the chosen image, selecting
    none leaves only the none box. *)
Theorem C6_selection_is_exclusive folder imgs (st : Session) (x y : string) :
  answers (_select_best folder imgs y (_select_best folder imgs x st))
    = <[folder := Best y]> (answers st) ∧
  answers (_select_best folder imgs x st) = <[folder := Best x]> (answers st) ∧
  answers (_select_worst folder imgs x st)
    = <[folder := WorstEqual (filter (λ f, f ≠ x) imgs)]> (answers st) ∧
  answers (_select_none folder imgs st) = <[folder := NoneMode]> (answers st) ∧
  exclusive folder imgs (widgets (_select_best folder imgs x st)) ∧
  exclusive folder imgs (widgets (_select_worst folder imgs x st)) ∧
  exclusive folder imgs (widgets (_select_none folder imgs st)) ∧
  (∀ k, k ∈ control_keys folder imgs →
     widgets (_select_best folder imgs x st) !! k
       = Some (bool_decide (k = best_key folder x ∧ x ∈ imgs)) ∧
     widgets (_select_worst folder imgs x st) !! k
       = Some (bool_decide (k = worst_key folder x ∧ x ∈ imgs)) ∧
     widgets (_select_none folder imgs st) !! k
       = Some (bool_decide (k = none_key folder))).
Proof.
  split; [simpl; apply insert_insert_eq|]. do 3 (split; [done|]).
  split; [|split; [|split]].
  - intros k1 k2 H1 H2. rewrite !widgets_select_best by done.
    intros [= E1%bool_decide_eq_true] [= E2%bool_decide_eq_true].
    destruct E1 as [-> _], E2 as [-> _]. done.
  - intros k1 k2 H1 H2. rewrite !widgets_select_worst by done.
    intros [= E1%bool_decide_eq_true] [= E2%bool_decide_eq_true].
    destruct E1 as [-> _], E2 as [-> _]. done.
  - intros k1 k2 H1 H2. rewrite !widgets_select_none by done.
    intros [= E1%bool_decide_eq_true] [= E2%bool_decide_eq_true]. congruence.
  - intros k Hk. by rewrite widgets_select_best, widgets_select_worst,
      widgets_select_none.
Qed.

(** ** The result table *)

Lemma result_row_NoneMode name ans q :
  ans !! q_folder q = Some NoneMode →
  result_row name ans q = inl (NameError "none_label").
Proof. unfold result_row. by intros ->. Qed.

Lemma result_row_ok name ans q :
  ans !! q_folder q ≠ Some NoneMode →
  ∃ r, result_row name ans q = inr r ∧ spec_row name ans q r.
Proof.
  unfold result_row, spec_row. intros Hn.
  destruct (ans !! q_folder q) as [[f|others|]|]; [| |done|];
    try (eexists; split; [reflexivity|]; by simpl).
  eexists; split; [reflexivity|]; simpl. repeat split.
  by destruct others as [|a [|b rest]].
Qed.

Lemma results_ok st :
  (∀ q, q ∈ questions st → answers st !! q_folder q ≠ Some NoneMode) →
  ∃ rows, results st = inr rows ∧
    Forall2 (spec_row (participant_name st) (answers st)) (questions st) rows.
Proof.
  unfold results. generalize (participant_name st) (answers st). intros name ans.
  induction (questions st) as [|q qs IH]; intros Hq.
  - exists []. by split.
  - destruct (result_row_ok name ans q) as (r & Hr & Hs).
    { apply Hq. left. }
    destruct IH as (rows & Hrows & Hall).
    { intros q' Hq'. apply Hq. by right. }
    exists (r :: rows). split; [|by constructor].
    simpl. rewrite Hr; simpl. by rewrite Hrows.
Qed.

Lemma results_NoneMode st :
  (∃ q, q ∈ questions st ∧ answers st !! q_folder q = Some NoneMode) →
  results st = inl (NameError "none_label").
Proof.
  unfold results. generalize (participant_name st) (answers st). intros name ans.
  induction (questions st) as [|q qs IH]; intros (q' & Hq' & Ha).
  - by apply elem_of_nil in Hq'.
  - simpl. destruct (decide (ans !! q_folder q = Some NoneMode)) as [E|E].
    + by rewrite result_row_NoneMode.
    + destruct (result_row_ok name ans q E) as (r & -> & _). simpl.
      rewrite IH; [done|]. exists q'. split; [|done].
      apply elem_of_cons in Hq' as [->|]; [congruence|done].
Qed.

Lemma spec_rows_folders name ans qs rows :
  Forall2 (spec_row name ans) qs rows → folder <$> rows = q_folder <$> qs.
Proof.
  induction 1 as [|q r qs rows (_ & Hf & _) _ IH]; [done|].
  by rewrite !fmap_cons, Hf, IH.
Qed.

(** C1 (amended). The exporter builds one row per question, in the order of
    the session's question list: as long as no folder holds the None variant,
    the rows carry the participant, the folder of the question at the same
    position, the empty string for an unanswered folder and the chosen file
    for Best.  With question shuffling off that list is in catalog order; with
    question shuffling on it is in the order of the shuffle seeded with
    "{name}|questions", and so are the rows; no action on a page changes the
    question list.  Over the question list [F1, F2] with answers
    {F1: Best("img1.png")} the rows are ("name","F1","img1.png") and
    ("name","F2",""). *)
Theorem C1_rows_follow_question_list :
  (∀ st,
     (∀ q, q ∈ questions st → answers st !! q_folder q ≠ Some NoneMode) →
     ∃ rows, results st = inr rows ∧
       length rows = length (questions st) ∧
       folder <$> rows = q_folder <$> questions st ∧
       Forall2 (spec_row (participant_name st) (answers st)) (questions st) rows) ∧
  (∀ R fs root name si st,
     ∃ st', start_refresh R fs root name false si st = inr st' ∧
       q_folder <$> questions st'
         = filter (λ d, catalog_images fs (path_join root d) ≠ [])
             (catalog_folders fs root)) ∧
  (∀ R fs root name si st,
     ∃ order st' rows,
       shuffle R (name +:+ "|questions") (catalog_folders fs root) = inr order ∧
       start_refresh R fs root name true si st = inr st' ∧
       q_folder <$> questions st'
         = filter (λ d, catalog_images fs (path_join root d) ≠ []) order ∧
       results st' = inr rows ∧
       folder <$> rows
         = filter (λ d, catalog_images fs (path_join root d) ≠ []) order) ∧
  (∀ ev st st', handle ev st = Some st' → questions st' = questions st) ∧
  (∀ p1 i1 p2 i2 idx w,
     results {| state_initialized := true;
                questions := [mkQuestion "F1" p1 i1; mkQuestion "F2" p2 i2];
                current_idx := idx;
                participant_name := "name";
                answers := {[ "F1" := Best "img1.png" ]};
                widgets := w |}
     = inr [mkRow "name" "F1" "img1.png"; mkRow "name" "F2" ""]).
Proof.
  split; [|split; [|split; [|split]]].
  - intros st Hq. destruct (results_ok st Hq) as (rows & Hr & Hall).
    exists rows. split; [done|]. split; [by rewrite (Forall2_length _ _ _ Hall)|].
    split; [|done]. by eapply spec_rows_folders.
  - intros. destruct (start_refresh_ok R fs root name false si st)
      as (order & qs & -> & _ & Hf & _ & ->).
    by eexists.
  - intros. destruct (start_refresh_ok R fs root name true si st)
      as (order & qs & Ho & _ & Hf & _ & Hs).
    set (st' := {| state_initialized := true; questions := qs;
                   current_idx := 0; participant_name := name;
                   answers := ∅; widgets := widgets st |}) in Hs.
    destruct (results_ok st') as (rows & Hr & Hall).
    { intros q _. simpl. by rewrite lookup_empty. }
    exists order, st', rows. repeat split; try done.
    rewrite <-Hf. by eapply spec_rows_folders.
  - intros ev st st' Hh. by apply handle_preserves in Hh as (_ & ? & _).
  - intros. reflexivity.
Qed.

(** C1, as stated, fails: participant "name" with question shuffling on sees
    F2 before F1, and the rows come out in that order, not in the catalog
    order F1, F2. *)
Lemma C1_rows_in_shuffled_order :
  ∃ st rows,
    session_shuffled = Some st ∧
    catalog_folders fs_F1F2 "/data" = ["F1"; "F2"] ∧
    answers st = {[ "F1" := Best "No Intervension _ Alpha_ 0_5.png" ]} ∧
    results st = inr rows ∧
    rows = [mkRow "name" "F2" "";
            mkRow "name" "F1" "No Intervension _ Alpha_ 0_5.png"] ∧
    folder <$> rows ≠ catalog_folders fs_F1F2 "/data".
Proof.
  eexists; eexists.
  split; [vm_compute; reflexivity|].
  split; [vm_compute; reflexivity|].
  split; [vm_compute; reflexivity|].
  split; [vm_compute; reflexivity|].
  split; [reflexivity|].
  vm_compute. discriminate.
Qed.

(** C2. A session in which some question's folder holds the None variant
    cannot be exported: building the rows raises NameError for the unbound
    name [none_label], so no row is produced and the export section never
    reaches the CSV, the disk or the download button. *)
Theorem C2_none_answer_raises st :
  (∃ q, q ∈ questions st ∧ answers st !! q_folder q = Some NoneMode) →
  results st = inl (NameError "none_label") ∧
  ∀ d root, export d root st = inl (NameError "none_label").
Proof.
  intros H. apply results_NoneMode in H. split; [done|].
  intros. unfold export. by rewrite H.
Qed.

Lemma C2_none_answer_raises_witness :
  (∃ q, q ∈ questions session_none ∧
        answers session_none !! q_folder q = Some NoneMode) ∧
  results session_none = inl (NameError "none_label") ∧
  ∀ d root, export d root session_none = inl (NameError "none_label").
Proof.
  assert (∃ q, q ∈ questions session_none ∧
               answers session_none !! q_folder q = Some NoneMode) as H.
  { exists (mkQuestion "A" "/data/A"
              ["Mirror Change Top Layers _ Alpha_ 0_5.png";
               "No Intervension _ Alpha_ 0_5.png"]).
    split; [vm_compute; left|vm_compute; reflexivity]. }
  split; [exact H|]. exact (C2_none_answer_raises session_none H).
Defined.

(** C7. A row built for a folder answered WorstEqual(others) reads
    "equal score for {a} and {b}" with the first two entries when there are at
    least two, and "equal score for {a}" when there is exactly one; the worst
    callback records WorstEqual over the images of the folder other than the
    chosen one; on the page of images a.png, b.png, marking a.png as worst
    exports "equal score for b.png". *)
Theorem C7_worst_equal_row :
  (∀ name ans q a b rest,
     result_row name (<[q_folder q := WorstEqual (a :: b :: rest)]> ans) q
     = inr (mkRow name (q_folder q) ("equal score for " +:+ a +:+ " and " +:+ b))) ∧
  (∀ name ans q a,
     result_row name (<[q_folder q := WorstEqual [a]]> ans) q
     = inr (mkRow name (q_folder q) ("equal score for " +:+ a))) ∧
  (∀ folder imgs f st,
     answers (_select_worst folder imgs f st) !! folder
     = Some (WorstEqual (filter (λ g, g ≠ f) imgs))) ∧
  (∀ name path w,
     let st := {| state_initialized := true;
                  questions := [mkQuestion "F" path ["a.png"; "b.png"]];
                  current_idx := 0;
                  participant_name := name;
                  answers := ∅;
                  widgets := w |} in
     ∃ st', handle (SelectWorst "a.png") st = Some st' ∧
       answers st' = {[ "F" := WorstEqual ["b.png"] ]} ∧
       results st' = inr [mkRow name "F" "equal score for b.png"]).
Proof.
  repeat split.
  - intros. unfold result_row. by rewrite lookup_insert_eq.
  - intros. unfold result_row. by rewrite lookup_insert_eq.
  - intros. simpl. by rewrite lookup_insert_eq.
  - intros. eexists. split; [reflexivity|]. split; reflexivity.
Qed.

(** C10. On a page with the single image x, the worst callback for x records
    WorstEqual with no entry, and the row exported for that folder reads
    "equal score for " with nothing after it. *)
Theorem C10_single_image_worst (name folder path x : string) (idx : Z)
    (a : gmap string Answer) (w : gmap string bool) :
  let st := {| state_initialized := true;
               questions := [mkQuestion folder path [x]];
               current_idx := idx;
               participant_name := name;
               answers := a;
               widgets := w |} in
  answers (_select_worst folder [x] x st) !! folder = Some (WorstEqual []) ∧
  ∃ st', handle (SelectWorst x) st = Some st' ∧
    answers st' !! folder = Some (WorstEqual []) ∧
    results st' = inr [mkRow name folder "equal score for "].
Proof.
  intros st.
  assert (filter (λ f, f ≠ x) [x] = []) as Hf.
  { rewrite filter_cons, decide_False by (by intros []). done. }
  assert (answers (_select_worst folder [x] x st) !! folder = Some (WorstEqual []))
    as Ha by (simpl; by rewrite Hf, lookup_insert_eq).
  split; [exact Ha|].
  destruct (handle_is_Some (SelectWorst x) st eq_refl ltac:(done)) as [st' Hh].
  exists st'. split; [done|].
  apply handle_Some in Hh as (r & q & Hr & Hq & ->).
  pose proof (rerun_index_in_range _ _ Hr) as Hi.
  apply rerun_Some in Hr as (_ & _ & _ & Hqr & Har & Hnr & _).
  unfold current_question in Hq. unfold index_in_range, nq in Hi.
  rewrite Hqr in Hq, Hi. cbn [questions st length] in Hq, Hi.
  replace (Z.to_nat (current_idx r)) with 0%nat in Hq by lia.
  injection Hq as <-. cbn [q_folder q_images].
  unfold results, _select_worst, update.
  cbn [questions answers participant_name]. rewrite Hqr, Hnr, Hf.
  cbn [questions st participant_name mapM]. unfold result_row.
  cbn [q_folder]. rewrite lookup_insert_eq. done.
Qed.

(** ** Saving and downloading *)

(** C3. What the export section does with the disk, for rows that were
    built: when creating the results directory fails, the exception leaves the
    script (the call stands outside the try block) and nothing is offered for
    download; when the directory is there, the download carries the bytes of
    the CSV text whether or not the file could be written, a failed write
    giving a warning with the message of the error and a successful one
    saving that same text. *)
Theorem C3_export_disk_outcomes d root st rows :
  results st = inr rows →
  let csv_text := Csv.text rows in
  let results_dir := path_join root "results" in
  let fn := Slug.slugify (participant_name st) +:+ "_results_" +:+ now d +:+ ".csv" in
  let file_path := path_join results_dir fn in
  match makedirs d results_dir with
  | inl e => export d root st = inl e
  | inr _ =>
      ∃ out, export d root st = inr out ∧
        download_data out = encode_utf8 csv_text ∧
        download_file_name out = fn ∧
        match write_text d file_path csv_text with
        | inl e =>
            notice out = Warning ("Could not save results to disk: " +:+ exn_str e) ∧
            saved out = None
        | inr _ =>
            notice out = Success ("Saved results to: " +:+ file_path) ∧
            saved out = Some (file_path, csv_text)
        end
  end.
Proof.
  intros Hr csv_text results_dir fn file_path. unfold export. rewrite Hr; simpl.
  fold csv_text results_dir. destruct (makedirs d results_dir) as [e|[]]; [done|].
  simpl. fold fn file_path. unfold try_except.
  destruct (write_text d file_path csv_text) as [e|[]]; simpl;
    eexists; (split; [reflexivity|]); by repeat split.
Qed.

Example export_without_new_file :
  ∃ out, export no_new_files_disk "/data" session_AB = inr out ∧
    notice out
      = Warning "Could not save results to disk: [Errno 13] Permission denied" ∧
    saved out = None ∧
    download_file_name out = "name_results_20250101_120000.csv" ∧
    download_data out
      = encode_utf8 (Csv.text [mkRow "name" "A" EmptyString]).
Proof. eexists. split; [vm_compute; reflexivity|]. repeat split. Qed.

Lemma C3_export_disk_outcomes_witness :
  results session_AB = inr [mkRow "name" "A" ""] ∧
  export read_only_disk "/data" session_AB
    = inl (OSError "[Errno 30] Read-only file system").
Proof.
  assert (results session_AB = inr [mkRow "name" "A" ""]) as Hr
    by (vm_compute; reflexivity).
  split; [exact Hr|].
  exact (C3_export_disk_outcomes read_only_disk "/data" session_AB _ Hr).
Defined.

(** * Further properties of the script *)

(** ** The catalog *)

(** X1. Both catalog helpers return their entries sorted, and the sort
    neither drops nor repeats anything: the folders are the listed entries
    that are directories, the images the listed entries that qualify. *)
Theorem X1_catalog_lists_sorted fs dir :
  ∃ folders imgs,
    list_folders fs dir = inr folders ∧ list_images fs dir = inr imgs ∧
    Sorted String.le folders ∧ Sorted String.le imgs ∧
    folders ≡ₚ filter (λ d, isdir fs (path_join dir d) = true) (present fs dir) ∧
    imgs ≡ₚ filter (λ f, qualifies f = true) (present fs dir).
Proof.
  exists (catalog_folders fs dir), (catalog_images fs dir).
  split; [apply list_folders_eq|]. split; [apply list_images_eq|].
  unfold catalog_folders, catalog_images.
  repeat split; first [apply sort_strings_sorted|apply sort_strings_perm].
Qed.

Lemma elem_of_ALLOWED_IMAGES f :
  f ∈ ALLOWED_IMAGES ↔
  f = "Mirror Change Top Layers _ Alpha_ 0_5.png" ∨
  f = "No Intervension _ Alpha_ 0_5.png".
Proof. unfold ALLOWED_IMAGES. set_solver. Qed.

(** X2. The extension test of [list_images] never decides anything: a file
    name passes the filter exactly when it is one of the two allowlisted
    names, both of which end in ".png". *)
Theorem X2_filter_is_the_allowlist f :
  qualifies f = true ↔ f ∈ ALLOWED_IMAGES.
Proof.
  split.
  - intros H. by apply qualifies_spec in H as [? _].
  - intros [-> | ->]%elem_of_ALLOWED_IMAGES; vm_compute; reflexivity.
Qed.

Lemma catalog_images_allowed fs dir f :
  f ∈ catalog_images fs dir → f ∈ ALLOWED_IMAGES.
Proof. intros H. apply elem_of_catalog_images in H. tauto. Qed.

Lemma catalog_images_NoDup fs dir :
  NoDup (present fs dir) → NoDup (catalog_images fs dir).
Proof.
  intros H. unfold catalog_images. rewrite sort_strings_perm.
  by apply NoDup_filter.
Qed.

Lemma allowed_list_short (l : list string) :
  NoDup l → (∀ f, f ∈ l → f ∈ ALLOWED_IMAGES) → (length l ≤ 2)%nat.
Proof.
  intros Hnd Hin.
  assert (l ⊆+ ["Mirror Change Top Layers _ Alpha_ 0_5.png";
                "No Intervension _ Alpha_ 0_5.png"]) as Hsub.
  { apply NoDup_submseteq; [done|]. intros f Hf.
    apply Hin, elem_of_ALLOWED_IMAGES in Hf as [-> | ->]; set_solver. }
  by apply submseteq_length in Hsub.
Qed.

(** X3. Every question stored by Start / Refresh has at least one image, all
    of them allowlisted names, and at most two when the listing of its folder
    names no file twice. *)
Theorem X3_one_or_two_images R fs root name sq si st :
  ∃ st', start_refresh R fs root name sq si st = inr st' ∧
    ∀ q, q ∈ questions st' →
      (1 ≤ length (q_images q))%nat ∧
      (∀ f, f ∈ q_images q → f ∈ ALLOWED_IMAGES) ∧
      (NoDup (present fs (q_path q)) → (length (q_images q) ≤ 2)%nat).
Proof.
  destruct (start_refresh_ok R fs root name sq si st)
    as (order & qs & _ & _ & _ & Hall & ->).
  eexists; split; [reflexivity|]. simpl. intros q Hq.
  rewrite Forall_forall in Hall. pose proof (Hall q Hq) as Hok.
  pose proof (question_ok_perm _ _ _ _ _ _ Hok) as Hp.
  destruct Hok as (_ & Hne & _).
  split; [destruct (q_images q); [done|simpl; lia]|].
  split.
  - intros f. rewrite Hp. apply catalog_images_allowed.
  - intros Hnd. apply allowed_list_short.
    + rewrite Hp. by apply catalog_images_NoDup.
    + intros f. rewrite Hp. apply catalog_images_allowed.
Qed.

(** X4. Questions are told apart by their folder.  When Start / Refresh
    completes on a root whose listing names no entry twice, no two questions
    of the new session share a folder, so each key of the answers, which are
    stored per folder, belongs to one question only; the new session is at
    index 0 with no answer recorded, whatever the session held before; and
    the actions of the page keep the folders distinct. *)
Theorem X4_start_resets_session R fs root name sq si st st' :
  start_refresh R fs root name sq si st = inr st' →
  NoDup (present fs root) →
  NoDup (q_folder <$> questions st') ∧
  (∀ i j qi qj, questions st' !! i = Some qi → questions st' !! j = Some qj →
     q_folder qi = q_folder qj → i = j) ∧
  current_idx st' = 0%Z ∧ answers st' = ∅ ∧
  (∀ ev st'', handle ev st' = Some st'' → NoDup (q_folder <$> questions st'')).
Proof.
  intros Hs Hnd.
  destruct (start_refresh_ok R fs root name sq si st)
    as (order & qs & _ & Hp & Hf & _ & E).
  rewrite E in Hs. injection Hs as <-. cbn [questions current_idx answers].
  assert (NoDup (q_folder <$> qs)) as Hq.
  { rewrite Hf. apply NoDup_filter. rewrite Hp.
    unfold catalog_folders. rewrite sort_strings_perm. by apply NoDup_filter. }
  split; [done|]. split; [|split; [done|split; [done|]]].
  - intros i j qi qj Hi Hj Hfq.
    apply (NoDup_lookup (q_folder <$> qs) i j (q_folder qi)); [done| |].
    + by rewrite list_lookup_fmap, Hi.
    + by rewrite list_lookup_fmap, Hj, Hfq.
  - intros ev st'' (_ & Hqs & _)%handle_preserves. by rewrite Hqs.
Qed.

Lemma X4_start_resets_session_witness :
  start_refresh low_draws fs_F1F2 "/data" "name" true true session_F1F2
    = inr restarted_F1F2 ∧
  NoDup (present fs_F1F2 "/data") ∧
  NoDup (q_folder <$> questions restarted_F1F2) ∧
  (∀ i j qi qj, questions restarted_F1F2 !! i = Some qi →
     questions restarted_F1F2 !! j = Some qj →
     q_folder qi = q_folder qj → i = j) ∧
  current_idx restarted_F1F2 = 0%Z ∧ answers restarted_F1F2 = ∅ ∧
  (∀ ev st'', handle ev restarted_F1F2 = Some st'' →
     NoDup (q_folder <$> questions st'')).
Proof.
  assert (start_refresh low_draws fs_F1F2 "/data" "name" true true session_F1F2
          = inr restarted_F1F2) as Hs by (vm_compute; reflexivity).
  assert (NoDup (present fs_F1F2 "/data")) as Hnd.
  { change (NoDup ["F2"; "F1"]). apply NoDup_cons. split; [|apply NoDup_singleton].
    intros H%list_elem_of_singleton. discriminate. }
  split; [exact Hs|]. split; [exact Hnd|].
  exact (X4_start_resets_session low_draws fs_F1F2 "/data" "name" true true
           session_F1F2 restarted_F1F2 Hs Hnd).
Defined.

(** ** The name of the saved file *)

Lemma keep_not_space a : Slug.keep a = true → Slug.is_space a = false.
Proof. destruct a as [[] [] [] [] [] [] [] []]; vm_compute; congruence. Qed.


Lemma keep_not_blank a : Slug.keep a = true → a ≠ " "%char.
Proof. intros H ->. vm_compute in H. discriminate. Qed.

Lemma all_chars_rev_app p s t :
  Str.all_chars p (String.rev_app s t) = Str.all_chars p s && Str.all_chars p t.
Proof.
  revert t. induction s as [|a s IH]; intros t; simpl; [done|].
  rewrite IH. simpl. by destruct (p a), (Str.all_chars p s).
Qed.

Lemma string_app_nil_r (s : string) : s +:+ "" = s.
Proof.
  induction s as [|a s IH]; [done|].
  change (String a (s +:+ "") = String a s). by rewrite IH.
Qed.

Lemma rev_app_rev_app s t u :
  String.rev_app (String.rev_app s t) u = String.rev_app t (s +:+ u).
Proof.
  revert t u. induction s as [|a s IH]; intros t u; simpl; [done|].
  by rewrite IH.
Qed.

Lemma string_rev_involutive s : String.rev (String.rev s) = s.
Proof.
  unfold String.rev. rewrite rev_app_rev_app. simpl. apply string_app_nil_r.
Qed.

Lemma keep_ascii a : Slug.keep a = true → (nat_of_ascii a < 128)%nat.
Proof.
  intros H. apply Nat.ltb_lt. revert H.
  destruct a as [[] [] [] [] [] [] [] []]; vm_compute; congruence.
Qed.

Lemma is_space2_high a b :
  Slug.is_space2 a b = true →
  (128 ≤ nat_of_ascii a)%nat ∧ (128 ≤ nat_of_ascii b)%nat.
Proof.
  unfold Slug.is_space2. cbv zeta.
  rewrite andb_true_iff, orb_true_iff, !Nat.eqb_eq. lia.
Qed.

Lemma is_space3_high a b c :
  Slug.is_space3 a b c = true →
  (128 ≤ nat_of_ascii a)%nat ∧ (128 ≤ nat_of_ascii b)%nat ∧
  (128 ≤ nat_of_ascii c)%nat.
Proof.
  unfold Slug.is_space3. cbv zeta.
  rewrite !orb_true_iff, !andb_true_iff, !orb_true_iff, !andb_true_iff,
    !Nat.eqb_eq, !Nat.leb_le. lia.
Qed.

Lemma strip_front_keep p2 p3 s :
  (∀ a b, Slug.keep a = true → p2 a b = false) →
  (∀ a b c, Slug.keep a = true → p3 a b c = false) →
  Str.all_chars Slug.keep s = true → Slug.strip_front p2 p3 s = s.
Proof.
  intros H2 H3. destruct s as [|a s]; [done|].
  intros [Ha _]%andb_true_iff. cbn [Slug.strip_front].
  rewrite (keep_not_space a Ha). destruct s as [|b s]; [done|].
  rewrite (H2 a b Ha). destruct s as [|c s]; [done|].
  by rewrite (H3 a b c Ha).
Qed.

Lemma lstrip_keep s : Str.all_chars Slug.keep s = true → Slug.lstrip s = s.
Proof.
  apply strip_front_keep.
  - intros a b Ha%keep_ascii. apply not_true_is_false.
    intros [? _]%is_space2_high. lia.
  - intros a b c Ha%keep_ascii. apply not_true_is_false.
    intros (? & _)%is_space3_high. lia.
Qed.

Lemma rstrip_keep s : Str.all_chars Slug.keep s = true → Slug.rstrip s = s.
Proof.
  intros H. unfold Slug.rstrip.
  rewrite strip_front_keep; [apply string_rev_involutive| | |].
  - intros a b Ha%keep_ascii. apply not_true_is_false.
    intros [_ ?]%is_space2_high. lia.
  - intros a b c Ha%keep_ascii. apply not_true_is_false.
    intros (_ & _ & ?)%is_space3_high. lia.
  - unfold String.rev. by rewrite all_chars_rev_app, H.
Qed.

Lemma strip_keep s : Str.all_chars Slug.keep s = true → Slug.strip s = s.
Proof.
  intros H. unfold Slug.strip. rewrite (lstrip_keep s H). by apply rstrip_keep.
Qed.

Lemma replace_space_filter_keep s :
  Str.all_chars Slug.keep (Slug.replace_space_filter s) = true.
Proof.
  induction s as [|a s IH]; simpl; [done|].
  destruct (Slug.keep _) eqn:E; [simpl; by rewrite E|done].
Qed.

Lemma replace_space_filter_id s :
  Str.all_chars Slug.keep s = true → Slug.replace_space_filter s = s.
Proof.
  induction s as [|a s IH]; simpl; [done|].
  intros [Ha Hs]%andb_true_iff.
  rewrite decide_False by (by apply keep_not_blank).
  by rewrite Ha, IH.
Qed.

(** X5. [slugify] returns only ASCII letters, digits, underscores and
    hyphens, whatever the text; it leaves a text made of such characters
    unchanged, so slugifying twice is slugifying once. *)
Theorem X5_slugify_safe_and_idempotent text :
  Str.all_chars Slug.keep (Slug.slugify text) = true ∧
  Slug.slugify (Slug.slugify text) = Slug.slugify text ∧
  (Str.all_chars Slug.keep text = true → Slug.slugify text = text).
Proof.
  assert (∀ t, Str.all_chars Slug.keep t = true → Slug.slugify t = t) as Hid.
  { intros t Ht. unfold Slug.slugify. rewrite strip_keep by done.
    by apply replace_space_filter_id. }
  pose proof (replace_space_filter_keep (Slug.strip text)) as Hk.
  split; [exact Hk|]. split; [by apply Hid|apply Hid].
Qed.




(** ** Rebuilding the page *)

Lemma lookup_init_keys keys (w : gmap string bool) k :
  init_keys keys w !! k
  = match w !! k with
    | Some b => Some b
    | None => if decide (k ∈ keys) then Some false else None
    end.
Proof.
  unfold init_keys. revert w.
  induction keys as [|k' keys IH]; intros w; cbn [foldl].
  { destruct (w !! k); [done|].
    destruct (decide _) as [H|]; [by apply elem_of_nil in H|done]. }
  rewrite IH. destruct (decide (k = k')) as [->|Hne].
  - destruct (w !! k') eqn:E; [by rewrite E|].
    rewrite lookup_insert_eq. by rewrite decide_True by left.
  - assert ((match w !! k' with Some _ => w | None => <[k':=false]> w end) !! k
            = w !! k) as ->.
    { destruct (w !! k'); [done|]. by rewrite lookup_insert_ne. }
    destruct (w !! k); [done|].
    destruct (decide (k ∈ keys)) as [Hin|Hnin].
    + by rewrite decide_True by (by right).
    + rewrite decide_False; [done|]. by intros [?|?]%elem_of_cons.
Qed.

Lemma init_keys_present keys (w : gmap string bool) :
  (∀ k, k ∈ keys → is_Some (w !! k)) → init_keys keys w = w.
Proof.
  intros H. apply map_eq. intros k. rewrite lookup_init_keys.
  destruct (w !! k) eqn:E; [done|].
  destruct (decide (k ∈ keys)) as [Hin|]; [|done].
  apply H in Hin as [b Hb]. congruence.
Qed.

Lemma elem_of_control_keys folder imgs k :
  k ∈ control_keys folder imgs ↔
  k ∈ best_keys folder imgs ∨ k ∈ worst_keys folder imgs ∨ k = none_key folder.
Proof.
  unfold control_keys. rewrite !elem_of_app, list_elem_of_singleton. tauto.
Qed.

Lemma lookup_restore_notin folder imgs prev (w : gmap string bool) k :
  k ∉ control_keys folder imgs →
  restore_controls folder imgs prev w !! k = w !! k.
Proof.
  rewrite elem_of_control_keys. intros Hk.
  assert (k ∉ best_keys folder imgs) as Hb by tauto.
  assert (k ∉ worst_keys folder imgs) as Hw by tauto.
  assert (none_key folder ≠ k) as Hn by (intros <-; tauto).
  assert (k ∉ (best_keys folder imgs ++ worst_keys folder imgs)%list) as Hbw
    by (rewrite elem_of_app; tauto).
  unfold restore_controls. destruct prev as [[c|ch|]|]; [| | |done].
  - unfold best_keys in *. rewrite lookup_mark_chosen_notin by done.
    rewrite lookup_insert_ne by done. by rewrite lookup_clear_keys_notin.
  - destruct (filter _ imgs) as [|worst ?].
    + rewrite lookup_clear_keys_notin by done.
      rewrite lookup_insert_ne by done. by rewrite lookup_clear_keys_notin.
    + unfold worst_keys in *. rewrite lookup_mark_chosen_notin by done.
      rewrite lookup_insert_ne by done. by rewrite lookup_clear_keys_notin.
  - rewrite !lookup_insert_ne by done. by rewrite lookup_clear_keys_notin.
Qed.

Lemma lookup_restore_in folder imgs a (w : gmap string bool) k :
  k ∈ control_keys folder imgs →
  restore_controls folder imgs (Some a) w !! k
  = Some (restored_value folder imgs a k).
Proof.
  rewrite elem_of_control_keys. intros Hk.
  assert (∀ k', k' ∈ best_keys folder imgs ∨ k' ∈ worst_keys folder imgs →
            (<[none_key folder := false]>
               (clear_keys (best_keys folder imgs ++ worst_keys folder imgs) w))
              !! k' = Some false) as Hclear.
  { intros k' Hk'. rewrite lookup_insert_ne.
    - apply lookup_clear_keys_in. rewrite elem_of_app. tauto.
    - intros <-. destruct Hk' as [H|H];
        [by apply none_key_best_keys in H|by apply none_key_worst_keys in H]. }
  unfold restore_controls, restored_value. destruct a as [c|ch|].
  - destruct Hk as [Hk|[Hk| ->]].
    + unfold best_keys in Hk |- *. apply list_elem_of_fmap in Hk as (f & -> & Hf).
      rewrite (lookup_mark_chosen_in _ (best_key_inj folder)) by done.
      f_equal. apply bool_decide_ext. split; [by intros ->|].
      intros [E _]. by apply best_key_inj in E.
    + pose proof (Hclear k (or_intror Hk)) as Hc.
      assert (k ∉ best_keys folder imgs) as Hnb
        by (intros Hb; by apply (best_keys_worst_keys folder imgs) in Hb).
      unfold best_keys in *. rewrite lookup_mark_chosen_notin by done.
      rewrite Hc. rewrite bool_decide_eq_false_2; [done|]. intros [-> _].
      unfold worst_keys in Hk. apply list_elem_of_fmap in Hk as (f & E & _).
      by apply best_worst_key in E.
    + pose proof (none_key_best_keys folder imgs) as Hnb.
      unfold best_keys in *. rewrite lookup_mark_chosen_notin by done.
      rewrite lookup_insert_eq. rewrite bool_decide_eq_false_2; [done|].
      intros [E _]. symmetry in E. by apply best_none_key in E.
  - destruct (filter _ imgs) as [|worst rest].
    + destruct Hk as [Hk|[Hk| ->]].
      * rewrite lookup_clear_keys_notin
          by (by apply best_keys_worst_keys). by apply Hclear; left.
      * by rewrite lookup_clear_keys_in.
      * rewrite lookup_clear_keys_notin by apply none_key_worst_keys.
        by rewrite lookup_insert_eq.
    + destruct Hk as [Hk|[Hk| ->]].
      * pose proof (Hclear k (or_introl Hk)) as Hc.
        pose proof (best_keys_worst_keys _ _ _ Hk) as Hnw.
        unfold worst_keys in *. rewrite lookup_mark_chosen_notin by done.
        rewrite Hc. rewrite bool_decide_eq_false_2; [done|]. intros ->.
        unfold best_keys in Hk. apply list_elem_of_fmap in Hk as (f & E & _).
        symmetry in E. by apply best_worst_key in E.
      * unfold worst_keys in *.
        apply list_elem_of_fmap in Hk as (f & -> & Hf).
        rewrite (lookup_mark_chosen_in _ (worst_key_inj folder)) by done.
        f_equal. apply bool_decide_ext. split; [by intros ->|].
        by intros E%worst_key_inj.
      * pose proof (none_key_worst_keys folder imgs) as Hnw.
        unfold worst_keys in *. rewrite lookup_mark_chosen_notin by done.
        rewrite lookup_insert_eq. rewrite bool_decide_eq_false_2; [done|].
        intros E. symmetry in E. by apply worst_none_key in E.
  - destruct Hk as [Hk|[Hk| ->]].
    + rewrite lookup_insert_ne
        by (intros <-; by apply none_key_best_keys in Hk).
      rewrite (Hclear k (or_introl Hk)).
      rewrite bool_decide_eq_false_2; [done|]. intros ->.
      by apply none_key_best_keys in Hk.
    + rewrite lookup_insert_ne
        by (intros <-; by apply none_key_worst_keys in Hk).
      rewrite (Hclear k (or_intror Hk)).
      rewrite bool_decide_eq_false_2; [done|]. intros ->.
      by apply none_key_worst_keys in Hk.
    + rewrite lookup_insert_eq. by rewrite bool_decide_eq_true_2.
Qed.

Lemma rerun_in_range st q :
  state_initialized st = true → index_in_range st →
  current_question st = Some q →
  rerun st
  = Some (update (answers st)
            (restore_controls (q_folder q) (q_images q)
               (answers st !! q_folder q)
               (init_keys [none_key (q_folder q)]
                  (init_keys (best_keys (q_folder q) (q_images q)
                              ++ worst_keys (q_folder q) (q_images q))
                     (widgets st))))
            (set_current_idx (current_idx st) st)).
Proof.
  unfold rerun, index_in_range, nq, current_question. intros -> Hi Hq.
  destruct (questions st) as [|q0 qs] eqn:E.
  { by rewrite lookup_nil in Hq. }
  rewrite Z.min_l, Z.max_r by lia. by rewrite Hq.
Qed.

Lemma rerun_inv st r :
  rerun st = Some r →
  ∃ q, current_question r = Some q ∧
    widgets r
    = restore_controls (q_folder q) (q_images q) (answers st !! q_folder q)
        (init_keys [none_key (q_folder q)]
           (init_keys (best_keys (q_folder q) (q_images q)
                       ++ worst_keys (q_folder q) (q_images q))
              (widgets st))).
Proof.
  unfold rerun, current_question. destruct (state_initialized st); [|done].
  destruct (questions st) as [|q0 qs] eqn:E; [done|].
  destruct (_ !! _) as [q|] eqn:Hq; [simpl|done]. intros [= <-]. simpl.
  exists q. by rewrite E.
Qed.

Lemma page_controls_present folder imgs prev (w : gmap string bool) k :
  k ∈ control_keys folder imgs →
  is_Some (restore_controls folder imgs prev
             (init_keys [none_key folder]
                (init_keys (best_keys folder imgs ++ worst_keys folder imgs) w))
           !! k).
Proof.
  intros Hk. destruct prev as [a|].
  { rewrite lookup_restore_in by done. by eexists. }
  cbn [restore_controls]. rewrite !lookup_init_keys.
  destruct (w !! k); [by eexists|].
  apply elem_of_control_keys in Hk.
  destruct (decide (k ∈ _ ++ _)%list) as [|Hn]; [by eexists|].
  rewrite decide_True; [by eexists|].
  rewrite elem_of_app in Hn. apply list_elem_of_singleton. tauto.
Qed.

(** X7. Building the page twice in a row shows the same page.  After a
    run of the script, a second run with no action in between, whatever
    has become of the stored values of controls that are not on the page,
    keeps the index, the questions, the answers and the name, shows the same
    question, and gives every control of that question the value the first
    run left it with. *)
Theorem X7_rerun_idempotent st r q (w : gmap string bool) :
  rerun st = Some r → current_question r = Some q →
  (∀ k, k ∈ control_keys (q_folder q) (q_images q) → w !! k = widgets r !! k) →
  ∃ r', rerun (update (answers r) w r) = Some r' ∧
    current_idx r' = current_idx r ∧ questions r' = questions r ∧
    answers r' = answers r ∧ participant_name r' = participant_name r ∧
    current_question r' = Some q ∧
    ∀ k, k ∈ control_keys (q_folder q) (q_images q) →
         widgets r' !! k = widgets r !! k.
Proof.
  intros Hr Hq Hw. pose proof (rerun_index_in_range _ _ Hr) as Hi.
  destruct (rerun_inv _ _ Hr) as (q' & Hq' & Hwr).
  rewrite Hq in Hq'. injection Hq' as <-.
  apply rerun_Some in Hr as (_ & _ & Hinit & _ & Ha & _).
  eexists. split; [by apply (rerun_in_range (update (answers r) w r) q)|].
  cbn [update set_current_idx current_idx questions answers participant_name
       widgets].
  do 4 (split; [done|]). split; [exact Hq|].
  intros k Hk.
  assert (is_Some (widgets r !! k)) as [b Hb]
    by (rewrite Hwr; by apply page_controls_present).
  destruct (answers r !! q_folder q) as [a|] eqn:Ea.
  - rewrite lookup_restore_in by done.
    rewrite Hwr, <-Ha, Ea. by rewrite lookup_restore_in.
  - cbn [restore_controls]. rewrite !lookup_init_keys, (Hw k Hk). by rewrite Hb.
Qed.

Lemma X7_rerun_idempotent_witness :
  rerun session_F1F2 = Some page_F1F2 ∧
  current_question page_F1F2 = Some question_F1 ∧
  (∀ k, k ∈ control_keys (q_folder question_F1) (q_images question_F1) →
        on_page_F1F2 !! k = widgets page_F1F2 !! k) ∧
  ∃ r', rerun (update (answers page_F1F2) on_page_F1F2 page_F1F2) = Some r' ∧
    current_idx r' = current_idx page_F1F2 ∧
    questions r' = questions page_F1F2 ∧
    answers r' = answers page_F1F2 ∧
    participant_name r' = participant_name page_F1F2 ∧
    current_question r' = Some question_F1 ∧
    ∀ k, k ∈ control_keys (q_folder question_F1) (q_images question_F1) →
         widgets r' !! k = widgets page_F1F2 !! k.
Proof.
  assert (rerun session_F1F2 = Some page_F1F2) as Hr
    by (vm_compute; reflexivity).
  assert (current_question page_F1F2 = Some question_F1) as Hq
    by (vm_compute; reflexivity).
  assert (∀ k, k ∈ control_keys (q_folder question_F1) (q_images question_F1) →
               on_page_F1F2 !! k = widgets page_F1F2 !! k) as Hw.
  { intros k Hk. unfold on_page_F1F2.
    rewrite map_lookup_filter. destruct (widgets page_F1F2 !! k); [simpl|done].
    by rewrite option_guard_True. }
  split; [exact Hr|]. split; [exact Hq|]. split; [exact Hw|].
  exact (X7_rerun_idempotent session_F1F2 page_F1F2 question_F1 on_page_F1F2
           Hr Hq Hw).
Defined.




(** ** Answers across actions *)

(** What one action does to the recorded answers: nothing for the two
    buttons, one entry under the folder on display for a callback. *)
Lemma handle_effect ev st st' :
  handle ev st = Some st' →
  ∃ r q, rerun st = Some r ∧ current_question r = Some q ∧ q ∈ questions st ∧
    questions st' = questions st ∧
    participant_name st' = participant_name st ∧
    answers st'
    = match ev with
      | Previous | Next => answers st
      | SelectBest f => <[q_folder q := Best f]> (answers st)
      | SelectWorst f =>
          <[q_folder q := WorstEqual (filter (λ g, g ≠ f) (q_images q))]>
            (answers st)
      | SelectNone => <[q_folder q := NoneMode]> (answers st)
      end.
Proof.
  intros (r & q & Hr & Hq & ->)%handle_Some. exists r, q.
  split; [done|]. split; [done|].
  pose proof Hr as (_ & _ & _ & Hqs & Ha & Hn & _)%rerun_Some.
  split.
  { rewrite <-Hqs. unfold current_question in Hq.
    by apply list_elem_of_lookup_2 in Hq. }
  destruct ev; simpl; unfold click_previous, click_next;
    repeat case_bool_decide; simpl; rewrite ?Ha; done.
Qed.

(** X9. One action changes the recorded answers at most under the folder of
    the question on display: Previous and Next change none, a callback
    replaces the entry of that folder with its own answer, and the entry of
    every other folder, the question list and the participant name stay as
    they were. *)
Theorem X9_action_touches_current_folder_only ev st st' :
  handle ev st = Some st' →
  ∃ r q, rerun st = Some r ∧ current_question r = Some q ∧ q ∈ questions st ∧
    questions st' = questions st ∧
    participant_name st' = participant_name st ∧
    (∀ g, g ≠ q_folder q → answers st' !! g = answers st !! g) ∧
    answers st' !! q_folder q
    = match ev with
      | Previous | Next => answers st !! q_folder q
      | SelectBest f => Some (Best f)
      | SelectWorst f => Some (WorstEqual (filter (λ g, g ≠ f) (q_images q)))
      | SelectNone => Some NoneMode
      end.
Proof.
  intros (r & q & Hr & Hq & Hin & Hqs & Hn & Ha)%handle_effect.
  exists r, q. do 5 (split; [done|]). rewrite Ha.
  split.
  - intros g Hg. destruct ev; by rewrite ?lookup_insert_ne.
  - destruct ev; by rewrite ?lookup_insert_eq.
Qed.

Lemma X9_action_touches_current_folder_only_witness :
  ∃ st',
    handle (SelectBest "No Intervension _ Alpha_ 0_5.png") session_AB = Some st' ∧
    ∃ r q, rerun session_AB = Some r ∧ current_question r = Some q ∧
      q ∈ questions session_AB ∧
      questions st' = questions session_AB ∧
      participant_name st' = participant_name session_AB ∧
      (∀ g, g ≠ q_folder q → answers st' !! g = answers session_AB !! g) ∧
      answers st' !! q_folder q
      = Some (Best "No Intervension _ Alpha_ 0_5.png").
Proof.
  eexists. split; [vm_compute; reflexivity|].
  refine (X9_action_touches_current_folder_only
            (SelectBest "No Intervension _ Alpha_ 0_5.png") session_AB _ _).
  vm_compute. reflexivity.
Defined.

Lemma reachable_answers_known R fs root st :
  reachable R fs root st →
  ∀ g, is_Some (answers st !! g) → g ∈ q_folder <$> questions st.
Proof.
  induction 1 as [name sq si st st' _ Hs|ev st st' _ IH Hh]; intros g [a Hg].
  - destruct (start_refresh_ok R fs root name sq si st)
      as (order & qs & _ & _ & _ & _ & E).
    rewrite E in Hs. injection Hs as <-. simpl in Hg.
    by rewrite lookup_empty in Hg.
  - apply handle_effect in Hh as (r & q & _ & _ & Hin & Hqs & _ & Ha).
    rewrite Hqs. rewrite Ha in Hg.
    assert (g = q_folder q ∨ is_Some (answers st !! g)) as [->|Hold].
    { destruct ev; try (right; by eexists);
        (destruct (decide (g = q_folder q)) as [->|Hne]; [by left|]);
        rewrite lookup_insert_ne in Hg by done; right; by eexists. }
    + by apply list_elem_of_fmap_2.
    + by apply IH.
Qed.

Lemma reachable_session_none : reachable high_draws fs_AB "/data" session_none.
Proof.
  apply (reach_event _ _ _ SelectNone session_AB).
  - apply (reach_start _ _ _ "name" true true initial_session); [discriminate|].
    vm_compute. reflexivity.
  - vm_compute. reflexivity.
Qed.

(** X10. In every session reached from Start / Refresh, each recorded
    answer belongs to the folder of a question, so the count of answered
    folders shown by the progress bar never exceeds the number of
    questions. *)
Theorem X10_answered_at_most_questions R fs root st :
  reachable R fs root st →
  (∀ g, is_Some (answers st !! g) → g ∈ q_folder <$> questions st) ∧
  (answered st ≤ length (questions st))%nat.
Proof.
  intros Hr. pose proof (reachable_answers_known _ _ _ _ Hr) as Hk.
  split; [exact Hk|].
  unfold answered. rewrite <-length_map_to_list.
  rewrite <-(length_fmap fst), <-(length_fmap q_folder (questions st)).
  apply submseteq_length, NoDup_submseteq;
    [apply NoDup_fst_map_to_list|].
  intros g (kv & -> & Hkv)%list_elem_of_fmap. apply Hk.
  destruct kv as [k a]. apply elem_of_map_to_list in Hkv. by exists a.
Qed.

Lemma X10_answered_at_most_questions_witness :
  reachable high_draws fs_AB "/data" session_none ∧
  (∀ g, is_Some (answers session_none !! g) →
        g ∈ q_folder <$> questions session_none) ∧
  (answered session_none ≤ length (questions session_none))%nat.
Proof.
  split; [exact reachable_session_none|].
  exact (X10_answered_at_most_questions high_draws fs_AB "/data" session_none
           reachable_session_none).
Defined.

(** ** Exporting what the page lets a participant record *)

Lemma ui_reachable_invariant R fs root st :
  ui_reachable R fs root st →
  (∀ q f, q ∈ questions st → f ∈ q_images q → f ∈ ALLOWED_IMAGES) ∧
  (∀ g a, answers st !! g = Some a → ∃ f, a = Best f ∧ f ∈ ALLOWED_IMAGES).
Proof.
  induction 1 as [name sq si st st' _ Hs|ev st st' _ [IHq IHa] Hoff Hh].
  - destruct (start_refresh_ok R fs root name sq si st)
      as (order & qs & _ & _ & _ & Hall & E).
    rewrite E in Hs. injection Hs as <-. simpl. split.
    + intros q f Hq Hf. rewrite Forall_forall in Hall.
      pose proof (question_ok_perm _ _ _ _ _ _ (Hall q Hq)) as Hp.
      rewrite Hp in Hf. by apply catalog_images_allowed in Hf.
    + intros g a Hg. by rewrite lookup_empty in Hg.
  - apply handle_effect in Hh as (r & q & Hr & Hq & Hin & Hqs & _ & Ha).
    rewrite Hqs. split; [exact IHq|]. intros g a. rewrite Ha.
    destruct Hoff as [| |r' q' f Hr' Hq' Hf]; [apply IHa..|].
    assert (r' = r) as -> by congruence.
    assert (q' = q) as -> by congruence.
    destruct (decide (g = q_folder q)) as [->|Hne].
    + rewrite lookup_insert_eq. intros [= <-]. exists f. split; [done|].
      by apply (IHq q f).
    + rewrite lookup_insert_ne by done. apply IHa.
Qed.

(** X11. Through the controls the page offers (Previous, Next and the check
    box of an image on display), building the result table never raises: there
    is one row per question, each under the participant's name, and its
    selected file is either empty or one of the two allowlisted names. *)
Theorem X11_offered_actions_export R fs root st :
  ui_reachable R fs root st →
  ∃ rows, results st = inr rows ∧
    length rows = length (questions st) ∧
    folder <$> rows = q_folder <$> questions st ∧
    ∀ r, r ∈ rows →
      participant r = participant_name st ∧
      (selected_file r = "" ∨ selected_file r ∈ ALLOWED_IMAGES).
Proof.
  intros [_ Ha]%ui_reachable_invariant.
  destruct (results_ok st) as (rows & Hr & Hall).
  { intros q _ E. by destruct (Ha _ _ E) as (f & ? & _). }
  exists rows. split; [done|].
  split; [by rewrite (Forall2_length _ _ _ Hall)|].
  split; [by eapply spec_rows_folders|].
  intros r Hr'. apply list_elem_of_lookup in Hr' as [i Hi].
  destruct (Forall2_lookup_r _ _ _ _ _ Hall Hi) as (q & _ & Hn & _ & Hs).
  split; [done|].
  destruct (answers st !! q_folder q) as [a|] eqn:E; [|by left].
  destruct (Ha _ _ E) as (f & -> & Hf). right. by rewrite Hs.
Qed.

Lemma ui_reachable_session_F1F2 :
  ui_reachable low_draws fs_F1F2 "/data" session_F1F2.
Proof.
  eapply (ui_event _ _ _ (SelectBest "No Intervension _ Alpha_ 0_5.png")).
  - eapply (ui_event _ _ _ Next).
    + apply (ui_start _ _ _ "name" true true initial_session); [discriminate|].
      vm_compute. reflexivity.
    + constructor.
    + vm_compute. reflexivity.
  - eapply offer_best; [vm_compute; reflexivity|vm_compute; reflexivity|].
    left.
  - vm_compute. reflexivity.
Qed.

Lemma X11_offered_actions_export_witness :
  ui_reachable low_draws fs_F1F2 "/data" session_F1F2 ∧
  ∃ rows, results session_F1F2 = inr rows ∧
    length rows = length (questions session_F1F2) ∧
    folder <$> rows = q_folder <$> questions session_F1F2 ∧
    ∀ r, r ∈ rows →
      participant r = participant_name session_F1F2 ∧
      (selected_file r = "" ∨ selected_file r ∈ ALLOWED_IMAGES).
Proof.
  split; [exact ui_reachable_session_F1F2|].
  exact (X11_offered_actions_export low_draws fs_F1F2 "/data" session_F1F2
           ui_reachable_session_F1F2).
Defined.

(** ** The grid of images *)

Lemma cols_per_row_bounds imgs : (2 ≤ Grid.cols_per_row imgs ≤ 4)%nat.
Proof. unfold Grid.cols_per_row. lia. Qed.

Lemma rows_cover imgs :
  (length imgs ≤ Grid.rows imgs * Grid.cols_per_row imgs)%nat.
Proof.
  unfold Grid.rows. pose proof (cols_per_row_bounds imgs) as Hc.
  set (C := Grid.cols_per_row imgs) in *. set (n := length imgs).
  pose proof (Nat.div_mod_eq (n + C - 1) C) as Hd.
  pose proof (Nat.mod_upper_bound (n + C - 1) C ltac:(lia)) as Hm.
  rewrite (Nat.mul_comm _ C). lia.
Qed.

Lemma bind_seq_at_index {A B} (l : list A) (g : nat → A → B) m :
  seq 0 m ≫= at_index l g = imap g (take m l).
Proof.
  induction m as [|m IH]; [by rewrite take_0|].
  rewrite seq_S, bind_app, IH. simpl. rewrite app_nil_r. unfold at_index.
  destruct (l !! m) as [x|] eqn:E.
  - rewrite (take_S_r _ _ _ E), imap_app. simpl.
    rewrite length_take_le, Nat.add_0_r; [done|].
    apply lookup_lt_Some in E. lia.
  - apply lookup_ge_None in E. rewrite !take_ge by lia. by rewrite app_nil_r.
Qed.

Lemma bind_rows_cols {B} (f : nat → list B) R C :
  seq 0 R ≫= (λ r, seq 0 C ≫= (λ c, f (r * C + c)%nat)) = seq 0 (R * C) ≫= f.
Proof.
  induction R as [|R IH]; [done|].
  rewrite seq_S, bind_app, IH. simpl. rewrite app_nil_r.
  replace (C + R * C)%nat with (R * C + C)%nat by lia.
  rewrite seq_app, bind_app. f_equal. simpl.
  replace (seq (R * C) C) with (Nat.add (R * C) <$> seq 0 C)
    by (rewrite fmap_add_seq; f_equal; lia).
  generalize (seq 0 C). intros l. induction l as [|c l IHl]; [done|].
  rewrite fmap_cons, !bind_cons. by rewrite IHl.
Qed.

(** X12. The grid shows every image of the question exactly once and in
    order: image number i sits in row i / cols and column i mod cols, with the
    check box keyed by its own best key, where cols is between 2 and 4; no
    cell is left for an index past the last image. *)
Theorem X12_grid_shows_each_image_once folder imgs :
  let cols := Grid.cols_per_row imgs in
  (2 ≤ cols ≤ 4)%nat ∧
  Grid.cells folder imgs
  = imap (λ i img, Grid.mkCell (i / cols) (i mod cols) img (best_key folder img))
      imgs ∧
  Grid.cell_image <$> Grid.cells folder imgs = imgs ∧
  Grid.cell_key <$> Grid.cells folder imgs = best_keys folder imgs ∧
  Forall (λ cell, (Grid.cell_row cell < Grid.rows imgs)%nat ∧
                  (Grid.cell_col cell < cols)%nat)
         (Grid.cells folder imgs).
Proof.
  intros C. pose proof (cols_per_row_bounds imgs) as Hc. fold C in Hc.
  set (g := λ i img, Grid.mkCell (i / C) (i mod C) img (best_key folder img)).
  assert (Grid.cells folder imgs = imap g imgs) as Hcells.
  { unfold Grid.cells. fold C.
    transitivity (seq 0 (Grid.rows imgs) ≫= λ r, seq 0 C ≫= λ c,
                    at_index imgs g (r * C + c)%nat).
    - apply Forall_bind_ext, Forall_forall. intros r _.
      apply Forall_bind_ext, Forall_forall. intros c Hcin.
      apply elem_of_seq in Hcin. unfold at_index, best_keys.
      rewrite list_lookup_fmap. destruct (imgs !! _); [simpl|done].
      unfold g. f_equal. f_equal.
      + apply (Nat.div_unique _ _ _ c); lia.
      + apply (Nat.mod_unique _ _ r); lia.
    - rewrite (bind_rows_cols (at_index imgs g)), bind_seq_at_index.
      by rewrite take_ge by apply rows_cover. }
  split; [done|]. split; [done|]. rewrite Hcells.
  split; [|split].
  - rewrite fmap_imap. unfold g, compose. simpl.
    rewrite (imap_const id). apply list_fmap_id.
  - rewrite fmap_imap. unfold g, compose. simpl.
    by rewrite (imap_const (best_key folder)).
  - apply Forall_lookup. intros i cell. rewrite list_lookup_imap.
    destruct (imgs !! i) as [img|] eqn:E; [simpl|done]. intros [= <-]. simpl.
    apply lookup_lt_Some in E. pose proof (rows_cover imgs) as Hr. fold C in Hr.
    split.
    + apply Nat.Div0.div_lt_upper_bound. lia.
    + apply Nat.mod_upper_bound. lia.
Qed.

(** ** Controls of different questions *)

Lemma list_ascii_of_string_app s1 s2 :
  list_ascii_of_string (s1 +:+ s2)
  = (list_ascii_of_string s1 ++ list_ascii_of_string s2)%list.
Proof.
  induction s1 as [|a s1 IH]; [done|].
  change (a :: list_ascii_of_string (s1 +:+ s2)
          = a :: (list_ascii_of_string s1 ++ list_ascii_of_string s2)%list).
  by rewrite IH.
Qed.

Lemma list_ascii_of_string_inj s1 s2 :
  list_ascii_of_string s1 = list_ascii_of_string s2 → s1 = s2.
Proof.
  intros H. by rewrite <-(string_of_list_ascii_of_string s1), H,
    string_of_list_ascii_of_string.
Qed.

(** A folder and an allowlisted file can be read back from their key. *)
Lemma folder_image_suffix A B f g :
  f ∈ ALLOWED_IMAGES → g ∈ ALLOWED_IMAGES →
  A +:+ "::" +:+ f = B +:+ "::" +:+ g → A = B ∧ f = g.
Proof.
  intros Hf Hg E. apply (f_equal list_ascii_of_string) in E.
  rewrite !list_ascii_of_string_app in E.
  apply elem_of_ALLOWED_IMAGES in Hf as [-> | ->];
    apply elem_of_ALLOWED_IMAGES in Hg as [-> | ->].
  - apply app_inv_tail in E. by apply list_ascii_of_string_inj in E.
  - exfalso. apply (f_equal reverse) in E. rewrite !reverse_app in E.
    vm_compute in E. discriminate E.
  - exfalso. apply (f_equal reverse) in E. rewrite !reverse_app in E.
    vm_compute in E. discriminate E.
  - apply app_inv_tail in E. by apply list_ascii_of_string_inj in E.
Qed.

Lemma control_keys_disjoint A B imgsA imgsB k :
  (∀ f, f ∈ imgsA → f ∈ ALLOWED_IMAGES) →
  (∀ g, g ∈ imgsB → g ∈ ALLOWED_IMAGES) →
  k ∈ control_keys A imgsA → k ∈ control_keys B imgsB → A = B.
Proof.
  intros HA HB. rewrite !elem_of_control_keys. unfold best_keys, worst_keys.
  rewrite !list_elem_of_fmap.
  intros [(f & -> & Hf)|[(f & -> & Hf)| ->]] [(g & E & Hg)|[(g & E & Hg)|E]];
    try discriminate E.
  - unfold best_key in E. apply (inj (String.append _)) in E.
    by apply folder_image_suffix in E as [-> _]; auto.
  - unfold worst_key in E. apply (inj (String.append _)) in E.
    by apply folder_image_suffix in E as [-> _]; auto.
  - unfold none_key in E. by apply (inj (String.append _)) in E.
Qed.

Lemma widgets_callback_notin folder imgs x st st' k :
  st' ∈ [_select_best folder imgs x st; _select_worst folder imgs x st;
         _select_none folder imgs st] →
  k ∉ control_keys folder imgs →
  widgets st' !! k = widgets st !! k.
Proof.
  rewrite elem_of_control_keys. intros Hst' Hk.
  assert (k ∉ best_keys folder imgs) as Hb by tauto.
  assert (k ∉ worst_keys folder imgs) as Hw by tauto.
  assert (none_key folder ≠ k) as Hn by (intros <-; tauto).
  assert (k ∉ (best_keys folder imgs ++ worst_keys folder imgs)%list) as Hbw
    by (rewrite elem_of_app; tauto).
  rewrite !elem_of_cons in Hst'.
  destruct Hst' as [->|[->|[->|H]]]; [| | |by apply elem_of_nil in H]; simpl;
    rewrite lookup_insert_ne by done;
    rewrite lookup_clear_keys_notin by done; [| |done].
  - unfold best_keys in *. by rewrite lookup_mark_chosen_notin.
  - unfold worst_keys in *. by rewrite lookup_mark_chosen_notin.
Qed.

(** X13. A callback run on the page of one folder changes no control of a
    question of another folder: with allowlisted image names the keys of two
    different folders never coincide, even when one folder name extends the
    other with "::". *)
Theorem X13_other_questions_untouched A B imgsA imgsB x st st' k :
  A ≠ B →
  (∀ f, f ∈ imgsA → f ∈ ALLOWED_IMAGES) →
  (∀ g, g ∈ imgsB → g ∈ ALLOWED_IMAGES) →
  st' ∈ [_select_best A imgsA x st; _select_worst A imgsA x st;
         _select_none A imgsA st] →
  k ∈ control_keys B imgsB →
  widgets st' !! k = widgets st !! k.
Proof.
  intros Hne HA HB Hst' Hk. apply (widgets_callback_notin A imgsA x); [done|].
  intros HkA. by apply Hne, (control_keys_disjoint A B imgsA imgsB k).
Qed.

Lemma X13_other_questions_untouched_witness :
  "F1" ≠ "F1::x" ∧
  (∀ f, f ∈ ["No Intervension _ Alpha_ 0_5.png"] → f ∈ ALLOWED_IMAGES) ∧
  _select_best "F1" ["No Intervension _ Alpha_ 0_5.png"]
    "No Intervension _ Alpha_ 0_5.png" session_F1F2
  ∈ [_select_best "F1" ["No Intervension _ Alpha_ 0_5.png"]
       "No Intervension _ Alpha_ 0_5.png" session_F1F2;
     _select_worst "F1" ["No Intervension _ Alpha_ 0_5.png"]
       "No Intervension _ Alpha_ 0_5.png" session_F1F2;
     _select_none "F1" ["No Intervension _ Alpha_ 0_5.png"] session_F1F2] ∧
  none_key "F1::x" ∈ control_keys "F1::x" ["No Intervension _ Alpha_ 0_5.png"] ∧
  widgets (_select_best "F1" ["No Intervension _ Alpha_ 0_5.png"]
             "No Intervension _ Alpha_ 0_5.png" session_F1F2)
    !! none_key "F1::x"
  = widgets session_F1F2 !! none_key "F1::x".
Proof.
  assert ("F1" ≠ "F1::x") as Hne by discriminate.
  assert (∀ f, f ∈ ["No Intervension _ Alpha_ 0_5.png"] → f ∈ ALLOWED_IMAGES)
    as Hall.
  { intros f Hf%list_elem_of_singleton. subst.
    apply elem_of_ALLOWED_IMAGES. by right. }
  assert (none_key "F1::x"
          ∈ control_keys "F1::x" ["No Intervension _ Alpha_ 0_5.png"]) as Hk
    by (apply elem_of_control_keys; by right; right).
  split; [exact Hne|]. split; [exact Hall|]. split; [left|]. split; [exact Hk|].
  exact (X13_other_questions_untouched "F1" "F1::x" _ _ _ _ _ _
           Hne Hall Hall ltac:(left) Hk).
Defined.

(** ** Going forth and back *)

Lemma handle_navigation ev st :
  ev = Next ∨ ev = Previous →
  state_initialized st = true → index_in_range st →
  ∃ s, handle ev st = Some s ∧
    state_initialized s = true ∧ questions s = questions st ∧
    answers s = answers st ∧ index_in_range s ∧
    current_idx s
    = match ev with
      | Next => Z.min (nq st - 1) (current_idx st + 1)
      | _ => Z.max 0 (current_idx st - 1)
      end.
Proof.
  intros Hev Hinit Hi.
  assert (questions st ≠ []) as Hq.
  { unfold index_in_range, nq in Hi. destruct (questions st); [simpl in Hi; lia|done]. }
  destruct (handle_is_Some ev st Hinit Hq) as [s Hs]. exists s.
  split; [done|].
  destruct (handle_preserves _ _ _ Hs) as (Hinit' & Hqs & Hi').
  pose proof Hs as (r & q & Hr & _ & _ & _ & _ & Ha)%handle_effect.
  split; [done|]. split; [done|].
  split; [by destruct Hev as [-> | ->]|]. split; [done|].
  apply handle_Some in Hs as (r' & q' & Hr' & _ & ->).
  assert (r' = r) as -> by congruence.
  apply rerun_Some in Hr as (_ & _ & _ & Hqr & _ & _ & Hir).
  assert (current_idx r = current_idx st) as Hsame
    by (unfold index_in_range in Hi; lia).
  clear -Hev Hi Hqr Hsame.
  unfold index_in_range, nq, click_next, click_previous in *.
  destruct Hev as [-> | ->]; rewrite ?Hqr, Hsame;
    (destruct (bool_decide _) eqn:Hb;
     [apply bool_decide_eq_true in Hb|apply bool_decide_eq_false in Hb]);
    cbn [current_idx set_current_idx]; rewrite ?Hsame; lia.
Qed.

(** X14. Next followed by Previous, on a page that is not the last, comes
    back to the same index, and so does Previous followed by Next on a page
    that is not the first; neither trip changes the answers or the question
    list. *)
Theorem X14_forth_and_back st :
  state_initialized st = true → index_in_range st →
  ((current_idx st < nq st - 1)%Z →
   ∃ s1 s2, handle Next st = Some s1 ∧ handle Previous s1 = Some s2 ∧
     current_idx s1 = (current_idx st + 1)%Z ∧
     current_idx s2 = current_idx st ∧
     answers s2 = answers st ∧ questions s2 = questions st) ∧
  ((0 < current_idx st)%Z →
   ∃ s1 s2, handle Previous st = Some s1 ∧ handle Next s1 = Some s2 ∧
     current_idx s1 = (current_idx st - 1)%Z ∧
     current_idx s2 = current_idx st ∧
     answers s2 = answers st ∧ questions s2 = questions st).
Proof.
  intros Hinit Hi. unfold index_in_range in Hi. split; intros Hlt.
  - destruct (handle_navigation Next st (or_introl eq_refl) Hinit Hi)
      as (s1 & H1 & Hinit1 & Hq1 & Ha1 & Hi1 & Hidx1).
    destruct (handle_navigation Previous s1 (or_intror eq_refl) Hinit1 Hi1)
      as (s2 & H2 & _ & Hq2 & Ha2 & _ & Hidx2).
    exists s1, s2.
    repeat split; [done|done|lia|lia|congruence|congruence].
  - destruct (handle_navigation Previous st (or_intror eq_refl) Hinit Hi)
      as (s1 & H1 & Hinit1 & Hq1 & Ha1 & Hi1 & Hidx1).
    destruct (handle_navigation Next s1 (or_introl eq_refl) Hinit1 Hi1)
      as (s2 & H2 & _ & Hq2 & Ha2 & _ & Hidx2).
    exists s1, s2.
    unfold nq in *. rewrite Hq1 in Hidx2.
    repeat split; [done|done|lia|lia|congruence|congruence].
Qed.

Lemma X14_forth_and_back_witness :
  state_initialized session_F1F2 = true ∧ index_in_range session_F1F2 ∧
  (0 < current_idx session_F1F2)%Z ∧
  ∃ s1 s2, handle Previous session_F1F2 = Some s1 ∧ handle Next s1 = Some s2 ∧
    current_idx s1 = (current_idx session_F1F2 - 1)%Z ∧
    current_idx s2 = current_idx session_F1F2 ∧
    answers s2 = answers session_F1F2 ∧ questions s2 = questions session_F1F2.
Proof.
  assert (state_initialized session_F1F2 = true) as Hinit
    by (vm_compute; reflexivity).
  assert (index_in_range session_F1F2) as Hi
    by (unfold index_in_range; vm_compute; split; discriminate).
  assert (0 < current_idx session_F1F2)%Z as Hpos by (vm_compute; reflexivity).
  split; [exact Hinit|]. split; [exact Hi|]. split; [exact Hpos|].
  exact (proj2 (X14_forth_and_back session_F1F2 Hinit Hi) Hpos).
Defined.

(** ** The rebuilt page, the sorted catalog and the completion message *)

Lemma restored_value_unique folder imgs a k1 k2 :
  restored_value folder imgs a k1 = true →
  restored_value folder imgs a k2 = true → k1 = k2.
Proof.
  unfold restored_value. destruct a as [c|ch|].
  - intros [-> _]%bool_decide_eq_true [-> _]%bool_decide_eq_true. done.
  - destruct (filter _ imgs); [done|].
    intros ->%bool_decide_eq_true ->%bool_decide_eq_true. done.
  - intros ->%bool_decide_eq_true ->%bool_decide_eq_true. done.
Qed.

(** X15. When the script rebuilds the page of a question whose folder has a
    recorded answer, whatever the stored control values were, at most one
    control of the question comes out true, each control having the value the
    answer gives it. *)
Theorem X15_rebuilt_page_exclusive st r q a :
  rerun st = Some r → current_question r = Some q →
  answers st !! q_folder q = Some a →
  exclusive (q_folder q) (q_images q) (widgets r) ∧
  ∀ k, k ∈ control_keys (q_folder q) (q_images q) →
       widgets r !! k = Some (restored_value (q_folder q) (q_images q) a k).
Proof.
  intros Hr Hq Ha. destruct (rerun_inv _ _ Hr) as (q' & Hq' & Hw).
  assert (q' = q) as -> by congruence. rewrite Ha in Hw.
  assert (∀ k, k ∈ control_keys (q_folder q) (q_images q) →
            widgets r !! k
            = Some (restored_value (q_folder q) (q_images q) a k)) as Hval.
  { intros k Hk. rewrite Hw. by apply lookup_restore_in. }
  split; [|exact Hval].
  intros k1 k2 H1 H2. rewrite (Hval k1 H1), (Hval k2 H2).
  intros [= E1] [= E2]. by eapply restored_value_unique.
Qed.

Lemma X15_rebuilt_page_exclusive_witness :
  ∃ r q a,
    rerun session_F1F2 = Some r ∧ current_question r = Some q ∧
    answers session_F1F2 !! q_folder q = Some a ∧
    exclusive (q_folder q) (q_images q) (widgets r) ∧
    ∀ k, k ∈ control_keys (q_folder q) (q_images q) →
         widgets r !! k = Some (restored_value (q_folder q) (q_images q) a k).
Proof.
  eexists; eexists; eexists.
  split; [vm_compute; reflexivity|].
  split; [vm_compute; reflexivity|].
  split; [vm_compute; reflexivity|].
  refine (X15_rebuilt_page_exclusive session_F1F2 _ _ _ _ _ _);
    vm_compute; reflexivity.
Defined.

Lemma StronglySorted_filter {A} (R : relation A) (P : A → Prop)
    `{∀ x, Decision (P x)} (l : list A) :
  StronglySorted R l → StronglySorted R (filter P l).
Proof.
  induction 1 as [|x l Hl IH Hx]; [constructor|].
  rewrite filter_cons. destruct (decide (P x)); [|done].
  constructor; [done|]. rewrite Forall_forall in Hx |- *.
  intros y Hy%list_elem_of_filter. apply Hx, Hy.
Qed.

Lemma sort_strings_strongly_sorted l : StronglySorted String.le (sort_strings l).
Proof. apply (StronglySorted_merge_sort String.le). Qed.

(** X16. With "Randomize question order" off the questions come in sorted
    folder order, and with "Randomize image order" off every question lists
    its images in sorted order. *)
Theorem X16_no_shuffle_means_sorted R fs root name sq si st :
  ∃ st', start_refresh R fs root name sq si st = inr st' ∧
    (sq = false → StronglySorted String.le (q_folder <$> questions st')) ∧
    (si = false →
     ∀ q, q ∈ questions st' → StronglySorted String.le (q_images q)).
Proof.
  destruct (start_refresh_ok R fs root name sq si st)
    as (order & qs & Ho & _ & Hf & Hall & ->).
  eexists; split; [reflexivity|]. simpl. split.
  - intros ->. rewrite Hf, Ho. apply StronglySorted_filter.
    apply sort_strings_strongly_sorted.
  - intros -> q Hq. rewrite Forall_forall in Hall.
    destruct (Hall q Hq) as (_ & _ & ->). apply sort_strings_strongly_sorted.
Qed.

(** X17. In a session reached from Start / Refresh whose questions have
    distinct folders, the count of answered folders equals the number of
    questions, which is when the script shows "All questions answered",
    exactly when every question has a recorded answer. *)
Theorem X17_all_answered R fs root st :
  reachable R fs root st → NoDup (q_folder <$> questions st) →
  answered st = length (questions st) ↔
  ∀ q, q ∈ questions st → is_Some (answers st !! q_folder q).
Proof.
  intros Hr Hnd. pose proof (reachable_answers_known _ _ _ _ Hr) as Hk.
  unfold answered. rewrite <-length_map_to_list.
  rewrite <-(length_fmap fst), <-(length_fmap q_folder (questions st)).
  assert ((map_to_list (answers st)).*1 ⊆+ q_folder <$> questions st) as Hsub.
  { apply NoDup_submseteq; [apply NoDup_fst_map_to_list|].
    intros g (kv & -> & Hkv)%list_elem_of_fmap. apply Hk.
    destruct kv as [k a]. apply elem_of_map_to_list in Hkv. by exists a. }
  assert (∀ g, g ∈ (map_to_list (answers st)).*1 ↔ is_Some (answers st !! g))
    as Hkeys.
  { intros g. rewrite list_elem_of_fmap. split.
    - intros ([k a] & -> & Hkv). apply elem_of_map_to_list in Hkv. by exists a.
    - intros [a Ha]. exists (g, a). split; [done|].
      by apply elem_of_map_to_list. }
  split.
  - intros Hlen q Hq. apply Hkeys.
    rewrite (submseteq_length_Permutation _ _ Hsub) by lia.
    by apply list_elem_of_fmap_2.
  - intros Hall. apply Nat.le_antisymm; [by apply submseteq_length|].
    apply submseteq_length, NoDup_submseteq; [done|].
    intros g (q & -> & Hq)%list_elem_of_fmap. by apply Hkeys, Hall.
Qed.

Lemma X17_all_answered_witness :
  reachable high_draws fs_AB "/data" session_none ∧
  NoDup (q_folder <$> questions session_none) ∧
  (answered session_none = length (questions session_none) ↔
   ∀ q, q ∈ questions session_none →
        is_Some (answers session_none !! q_folder q)).
Proof.
  assert (NoDup (q_folder <$> questions session_none)) as Hnd.
  { vm_compute. apply NoDup_singleton. }
  split; [exact reachable_session_none|]. split; [exact Hnd|].
  exact (X17_all_answered high_draws fs_AB "/data" session_none
           reachable_session_none Hnd).
Defined.
